(** * Research Publisher: [scripts/upload_pricing_research.py]

    A shallow embedding of the one-shot upload script and the properties
    of its document fan-out.

    The script reads one JSON tree, stamps it with upload metadata, and
    writes it, whole and in parts, to a hierarchical document store.
    The embedding keeps the three effects the script has:
    - reading the wall clock ([datetime.utcnow()]),
    - writing a document ([DocumentReference.set]), which may raise,
    - printing a line to standard output,
    and threads them through a small state-and-exception monad.  The
    clock and the store's failures belong to the environment; they are
    given as oracles indexed by the number of calls made so far.

    Outside the model: opening and parsing the input file (the parsed
    tree is the input here) and the construction of the store client.

    References are built as the client library builds them: the id is
    joined to the path of the parent with [/], the result is split at
    every [/], and the constructor of a document reference refuses a
    path with an odd number of segments.  A tier key with a [/] in it
    therefore names a document further down, or no document at all.
    What the store itself refuses of an id or of a record belongs to
    what makes a write raise. *)

From Stdlib Require Import ZArith List String Ascii Bool Lia DecimalString.
From stdpp Require Import base gmap list strings.
Import ListNotations.
Open Scope string_scope.
Open Scope list_scope.

(** ** Python values *)

#[local] Set Warnings "-register-all".  (* [value] nests through list and prod *)

(** What [json.load] returns, plus the [datetime] objects the script
    puts into the tree.  A [dict] keeps its keys in insertion order, so
    it is an association list; a float is carried as its literal (the
    script never computes with one). *)
Inductive value : Type :=
| VNone
| VBool (b : bool)
| VInt (n : Z)
| VFloat (literal : string)
| VStr (s : string)
| VList (xs : list value)
| VDict (items : list (string * value))
| VDatetime (t : Z).

Abbreviation dict := (list (string * value)).

(** The exceptions the script can die with. *)
Inductive exn : Type :=
| KeyError (key : string)
| TypeError
| AttributeError
| ValueError
| WriteError.

Module Dict.

(** [d.get(k)] *)
Fixpoint get (k : string) (d : dict) : option value :=
  match d with
  | [] => None
  | (k', v) :: rest => if String.eqb k k' then Some v else get k rest
  end.

(** [d[k] = v]: an existing key keeps its position, a new one goes
    last. *)
Fixpoint set (k : string) (v : value) (d : dict) : dict :=
  match d with
  | [] => [(k, v)]
  | (k', v') :: rest =>
      if String.eqb k k' then (k, v) :: rest else (k', v') :: set k v rest
  end.

(** [del d[k]], used to compare records up to some fields. *)
Fixpoint remove (k : string) (d : dict) : dict :=
  match d with
  | [] => []
  | (k', v') :: rest =>
      if String.eqb k k' then remove k rest else (k', v') :: remove k rest
  end.

(** [list(d.keys())] *)
Definition keys (d : dict) : list string := map fst d.

End Dict.

(** [obj[k]] for a string [k]: only a dict can be indexed by a string. *)
Definition getitem (obj : value) (k : string) : exn + value :=
  match obj with
  | VDict d =>
      match Dict.get k d with
      | Some v => inr v
      | None => inl (KeyError k)
      end
  | _ => inl TypeError
  end.

(** [obj[k] = v] for a string [k]. *)
Definition setitem (obj : value) (k : string) (v : value) : exn + value :=
  match obj with
  | VDict d => inr (VDict (Dict.set k v d))
  | _ => inl TypeError
  end.

(** [obj.items()] *)
Definition items_of (obj : value) : exn + dict :=
  match obj with
  | VDict d => inr d
  | _ => inl AttributeError
  end.

(** [**obj] inside a dict display. *)
Definition spread (obj : value) : exn + dict :=
  match obj with
  | VDict d => inr d
  | _ => inl TypeError
  end.

(** [len(obj)].  A [str] is taken as its sequence of characters. *)
Definition len (obj : value) : exn + nat :=
  match obj with
  | VList xs => inr (List.length xs)
  | VDict d => inr (List.length d)
  | VStr s => inr (String.length s)
  | _ => inl TypeError
  end.

(** [f"{n}"] for a natural number. *)
Definition format_nat (n : nat) : string :=
  NilEmpty.string_of_uint (Nat.to_uint n).

(** A Python dict has pairwise distinct keys; [valid] says so for every
    dict inside a value. *)
Fixpoint valid (v : value) : bool :=
  match v with
  | VList xs => forallb valid xs
  | VDict d =>
      bool_decide (NoDup (map fst d))
      && forallb (fun kv => valid (snd kv)) d
  | _ => true
  end.

(** ** The document store and the environment *)

(** A reference is the chain of collection and document ids from the
    client down. *)
Abbreviation path := (list string).

(** [DOCUMENT_PATH_DELIMITER.join(path)] *)
Definition join_path (p : path) : string := String.concat "/" p.

(** [joined_path.split(DOCUMENT_PATH_DELIMITER)]: the pieces between
    the occurrences of [/].  There is always at least one, so the
    first branch of the inner match is never taken. *)
Fixpoint split_path (s : string) : path :=
  match s with
  | EmptyString => [EmptyString]
  | String c rest =>
      if Ascii.eqb c "/" then EmptyString :: split_path rest
      else match split_path rest with
           | [] => [String c EmptyString]
           | seg :: segs => String c seg :: segs
           end
  end.

(** [verify_path(path, is_collection)]: a collection has an odd number
    of path elements and a document an even one. *)
Definition verify_path (p : path) (is_collection : bool) : exn + unit :=
  match p with
  | [] => inl ValueError
  | _ =>
      if Bool.eqb (Nat.even (List.length p)) is_collection
      then inl ValueError
      else inr tt
  end.

(** The path of [parent.collection(id)]: the client splits a path
    given as one string; an id under a document is appended as it
    is.  The script names its collections by fixed ids, which give the
    odd number of path elements a collection must have. *)
Definition collection (parent : path) (id : string) : path :=
  match parent with
  | [] => split_path id
  | _ => parent ++ [id]
  end.

(** The path of [parent.document(id)]: the segments are joined and
    split again, so a [/] in [id] makes more than one segment. *)
Definition document (parent : path) (id : string) : path :=
  split_path (join_path (parent ++ [id])).

(** [DocumentReference]: the constructor verifies the path. *)
Definition document_reference (p : path) : exn + path :=
  match verify_path p false with
  | inl e => inl e
  | inr _ => inr p
  end.

(** [db = firestore.Client(...)] *)
Definition db : path := [].

(** The references the script builds, under the names it gives them.
    All but that of a tier have fixed ids. *)
Definition strategy : path :=
  document (collection db "ai_music_studio") "pricing_strategy".
Definition doc_ref : path :=
  document (collection strategy "research") "v1_2026_01_05".
Definition tier_ref (tier_name : string) : path :=
  document (collection strategy "tiers") tier_name.
Definition comp_ref : path :=
  document (collection strategy "competitors") "analysis_2026_01_05".
Definition b2b_ref : path :=
  document (collection strategy "b2b_models") "api_pricing".
Definition wl_ref : path :=
  document (collection strategy "b2b_models") "white_label".
Definition insights_ref : path :=
  document (collection strategy "analytics") "key_insights".
Definition index_ref : path := strategy.

Record Env : Type := {
  (** what the [n]-th call of [datetime.utcnow()] returns *)
  utcnow_at : nat -> Z;
  (** whether the [n]-th call of [set] raises *)
  set_raises : nat -> bool
}.

Record World : Type := {
  reads : nat;                       (* clock readings taken *)
  attempts : nat;                    (* calls of [set] made *)
  docs : gmap path value;            (* the store's contents *)
  writes : list (path * value);      (* completed writes, oldest first *)
  stdout : list string               (* lines printed, oldest first *)
}.

Definition start (store : gmap path value) : World :=
  {| reads := 0; attempts := 0; docs := store; writes := []; stdout := [] |}.

(** ** The monad *)

Definition M (A : Type) : Type := World -> (exn + A) * World.

Definition ret {A} (a : A) : M A := fun w => (inr a, w).

Definition bind {A B} (c : M A) (k : A -> M B) : M B :=
  fun w =>
    match c w with
    | (inl e, w') => (inl e, w')
    | (inr a, w') => k a w'
    end.

Definition lift {A} (r : exn + A) : M A := fun w => (r, w).

Notation "x <- c ;; k" := (bind c (fun x => k))
  (at level 100, c at next level, right associativity).
Notation "c ;; k" := (bind c (fun _ => k))
  (at level 100, right associativity).

Fixpoint for_each {A} (xs : list A) (body : A -> M unit) : M unit :=
  match xs with
  | [] => ret tt
  | x :: rest => body x ;; for_each rest body
  end.

Section Publisher.

Variable env : Env.

(** [datetime.utcnow()] *)
Definition utcnow : M Z :=
  fun w =>
    (inr (utcnow_at env (reads w)),
     {| reads := S (reads w); attempts := attempts w; docs := docs w;
        writes := writes w; stdout := stdout w |}).

(** [ref.set(data)]: replaces whatever the store holds at [ref], or
    raises and leaves the store as it was. *)
Definition doc_set (ref : path) (data : value) : M unit :=
  fun w =>
    if set_raises env (attempts w) then
      (inl WriteError,
       {| reads := reads w; attempts := S (attempts w); docs := docs w;
          writes := writes w; stdout := stdout w |})
    else
      (inr tt,
       {| reads := reads w; attempts := S (attempts w);
          docs := <[ref := data]> (docs w);
          writes := writes w ++ [(ref, data)]; stdout := stdout w |}).

(** [print(line)] *)
Definition print (line : string) : M unit :=
  fun w =>
    (inr tt,
     {| reads := reads w; attempts := attempts w; docs := docs w;
        writes := writes w; stdout := stdout w ++ [line] |}).

(** The body of the loop over [tiers.items()]. *)
Definition upload_tier (item : string * value) : M unit :=
  let '(tier_name, tier_data) := item in
  tier_ref <- lift (document_reference (tier_ref tier_name)) ;;
  attrs <- lift (spread tier_data) ;;
  now <- utcnow ;;
  doc_set tier_ref
    (VDict (Dict.set "updated_at" (VDatetime now)
             (Dict.set "tier_id" (VStr tier_name) attrs))) ;;
  print ("✓ Uploaded tier: " ++ tier_name).

Definition upload_pricing_research (loaded : value) : M unit :=
  (* Add upload metadata *)
  now <- utcnow ;;
  research_data <- lift (setitem loaded "uploaded_at" (VDatetime now)) ;;
  research_data <-
    lift (setitem research_data "uploaded_by" (VStr "claude-sonnet-4-5")) ;;
  research_data <- lift (setitem research_data "version" (VStr "v1.0")) ;;
  research_data <- lift (setitem research_data "status" (VStr "active")) ;;
  (* Main document path *)
  doc_ref <- lift (document_reference doc_ref) ;;
  (* Upload main research document *)
  doc_set doc_ref research_data ;;
  print "✓ Uploaded main research document to Firestore" ;;
  (* Upload individual tier configurations *)
  pricing <- lift (getitem research_data "recommended_pricing_tiers") ;;
  tiers <- lift (getitem pricing "tier_structure") ;;
  tier_items <- lift (items_of tiers) ;;
  for_each tier_items upload_tier ;;
  (* Upload competitor analysis *)
  competitors <- lift (getitem research_data "competitor_pricing") ;;
  comp_ref <- lift (document_reference comp_ref) ;;
  now <- utcnow ;;
  doc_set comp_ref
    (VDict [("competitors", competitors); ("updated_at", VDatetime now)]) ;;
  print "✓ Uploaded competitor analysis" ;;
  (* Upload B2B pricing models *)
  pricing <- lift (getitem research_data "recommended_pricing_tiers") ;;
  b2b_pricing <- lift (getitem pricing "b2b_api_pricing") ;;
  b2b_ref <- lift (document_reference b2b_ref) ;;
  attrs <- lift (spread b2b_pricing) ;;
  now <- utcnow ;;
  doc_set b2b_ref (VDict (Dict.set "updated_at" (VDatetime now) attrs)) ;;
  print "✓ Uploaded B2B API pricing" ;;
  (* Upload white-label reseller model *)
  pricing <- lift (getitem research_data "recommended_pricing_tiers") ;;
  white_label <- lift (getitem pricing "white_label_reseller") ;;
  wl_ref <- lift (document_reference wl_ref) ;;
  attrs <- lift (spread white_label) ;;
  now <- utcnow ;;
  doc_set wl_ref (VDict (Dict.set "updated_at" (VDatetime now) attrs)) ;;
  print "✓ Uploaded white-label pricing" ;;
  (* Upload key insights *)
  insights <- lift (getitem research_data "key_insights") ;;
  insights_ref <- lift (document_reference insights_ref) ;;
  attrs <- lift (spread insights) ;;
  now <- utcnow ;;
  doc_set insights_ref (VDict (Dict.set "updated_at" (VDatetime now) attrs)) ;;
  print "✓ Uploaded key insights" ;;
  (* Create index document *)
  index_ref <- lift (document_reference index_ref) ;;
  now <- utcnow ;;
  sources <- lift (getitem research_data "sources") ;;
  total <- lift (len sources) ;;
  doc_set index_ref
    (VDict [("latest_version", VStr "v1_2026_01_05");
            ("last_updated", VDatetime now);
            ("status", VStr "active");
            ("subcollections",
             VList [VStr "research"; VStr "tiers"; VStr "competitors";
                    VStr "b2b_models"; VStr "analytics"]);
            ("description",
             VStr "AI Music Studio pricing strategy and monetization research");
            ("total_sources", VInt (Z.of_nat total))]) ;;
  print "✓ Created index document" ;;
  print (String "010"%char "=== Upload Complete ===") ;;
  print "Firestore path: ai_music_studio/pricing_strategy" ;;
  total_tiers <- lift (len tiers) ;;
  print ("Total tiers: " ++ format_nat total_tiers) ;;
  print "Research version: v1_2026_01_05" ;;
  print "Status: Active".

End Publisher.

(** ** The shape of the input tree *)

(** [tree[k]] when [tree] is a dict that has [k]. *)
Definition field (k : string) (tree : value) : option value :=
  match tree with
  | VDict d => Dict.get k d
  | _ => None
  end.

Definition is_dict (v : value) : bool :=
  match v with VDict _ => true | _ => false end.

Definition is_list (v : value) : bool :=
  match v with VList _ => true | _ => false end.

Definition dict_of_dicts (v : value) : bool :=
  match v with
  | VDict d => forallb (fun kv => is_dict (snd kv)) d
  | _ => false
  end.

Definition has (k : string) (ok : value -> bool) (tree : value) : bool :=
  match field k tree with
  | Some v => ok v
  | None => false
  end.

Definition sized (v : value) : bool :=
  match len v with inr _ => true | inl _ => false end.

(** What the script needs of a tree to get through all its lookups:
    the keys it reads are there and have the kind of value it uses them
    as.  [tier_structure] maps names to dicts, the B2B, white-label and
    insights sections are dicts, [sources] has a length.
    [competitor_pricing] is copied as it is, so any value will do. *)
Definition shaped (tree : value) : bool :=
  has "recommended_pricing_tiers"
      (fun pricing =>
         has "tier_structure" dict_of_dicts pricing
         && has "b2b_api_pricing" is_dict pricing
         && has "white_label_reseller" is_dict pricing)
      tree
  && has "competitor_pricing" (fun _ => true) tree
  && has "key_insights" is_dict tree
  && has "sources" sized tree.

(** A well-formed input: a Python object of the shape above whose
    [sources] is an array. *)
Definition well_formed (tree : value) : bool :=
  valid tree && shaped tree && has "sources" is_list tree.

(** The sections of a tree; an absent one reads as [None]. *)
Definition section_of (ks : list string) (tree : value) : value :=
  fold_left (fun v k => default VNone (field k v)) ks tree.

Definition attrs_of (v : value) : dict :=
  match v with VDict d => d | _ => [] end.

Definition elements_of (v : value) : list value :=
  match v with VList xs => xs | _ => [] end.

Definition size_of (v : value) : nat :=
  match len v with inr n => n | inl _ => 0 end.

Definition tier_structure (tree : value) : dict :=
  attrs_of (section_of ["recommended_pricing_tiers"; "tier_structure"] tree).
Definition b2b_api_pricing (tree : value) : dict :=
  attrs_of (section_of ["recommended_pricing_tiers"; "b2b_api_pricing"] tree).
Definition white_label_reseller (tree : value) : dict :=
  attrs_of (section_of ["recommended_pricing_tiers"; "white_label_reseller"] tree).
Definition competitor_pricing (tree : value) : value :=
  section_of ["competitor_pricing"] tree.
Definition key_insights (tree : value) : dict :=
  attrs_of (section_of ["key_insights"] tree).
Definition sources (tree : value) : list value :=
  elements_of (section_of ["sources"] tree).

(** [tier_structure] is absent: the tree is a dict whose pricing section
    is missing, or is a dict without that key. *)
Definition tier_structure_absent (tree : value) : bool :=
  is_dict tree &&
  match field "recommended_pricing_tiers" tree with
  | None => true
  | Some pricing =>
      is_dict pricing &&
      match field "tier_structure" pricing with
      | None => true
      | Some _ => false
      end
  end.

(** The key whose lookup fails in such a tree. *)
Definition absent_key (tree : value) : string :=
  match field "recommended_pricing_tiers" tree with
  | None => "recommended_pricing_tiers"
  | Some _ => "tier_structure"
  end.

(** ** The records a run is expected to write *)

(** The tree after the four metadata assignments. *)
Definition stamp (now : Z) (d : dict) : dict :=
  Dict.set "status" (VStr "active")
    (Dict.set "version" (VStr "v1.0")
      (Dict.set "uploaded_by" (VStr "claude-sonnet-4-5")
        (Dict.set "uploaded_at" (VDatetime now) d))).

Definition tier_record (tier_name : string) (attrs : dict) (now : Z) : value :=
  VDict (Dict.set "updated_at" (VDatetime now)
          (Dict.set "tier_id" (VStr tier_name) attrs)).

Definition section_record (attrs : dict) (now : Z) : value :=
  VDict (Dict.set "updated_at" (VDatetime now) attrs).

Definition competitors_record (competitors : value) (now : Z) : value :=
  VDict [("competitors", competitors); ("updated_at", VDatetime now)].

Definition index_record (total : nat) (now : Z) : value :=
  VDict [("latest_version", VStr "v1_2026_01_05");
         ("last_updated", VDatetime now);
         ("status", VStr "active");
         ("subcollections",
          VList [VStr "research"; VStr "tiers"; VStr "competitors";
                 VStr "b2b_models"; VStr "analytics"]);
         ("description",
          VStr "AI Music Studio pricing strategy and monetization research");
         ("total_sources", VInt (Z.of_nat total))].

(** One write of the script: where it goes, the record as a function of
    the clock reading taken for it, and the line printed after it. *)
Record step : Type := {
  target : path;
  record_at : Z -> value;
  report : string
}.

Definition tier_step (item : string * value) : step :=
  {| target := tier_ref (fst item);
     record_at := tier_record (fst item) (attrs_of (snd item));
     report := "✓ Uploaded tier: " ++ fst item |}.

Definition main_step (tree : value) : step :=
  {| target := doc_ref;
     record_at := fun now => VDict (stamp now (attrs_of tree));
     report := "✓ Uploaded main research document to Firestore" |}.

Definition competitors_step (tree : value) : step :=
  {| target := comp_ref;
     record_at := competitors_record (competitor_pricing tree);
     report := "✓ Uploaded competitor analysis" |}.

Definition b2b_step (tree : value) : step :=
  {| target := b2b_ref;
     record_at := section_record (b2b_api_pricing tree);
     report := "✓ Uploaded B2B API pricing" |}.

Definition white_label_step (tree : value) : step :=
  {| target := wl_ref;
     record_at := section_record (white_label_reseller tree);
     report := "✓ Uploaded white-label pricing" |}.

Definition insights_step (tree : value) : step :=
  {| target := insights_ref;
     record_at := section_record (key_insights tree);
     report := "✓ Uploaded key insights" |}.

Definition index_step (tree : value) : step :=
  {| target := index_ref;
     record_at := index_record (size_of (section_of ["sources"] tree));
     report := "✓ Created index document" |}.

(** The writes of a run, in the order of the script. *)
Definition plan (tree : value) : list step :=
  main_step tree
  :: map tier_step (tier_structure tree)
  ++ [competitors_step tree; b2b_step tree; white_label_step tree;
      insights_step tree; index_step tree].

(** The targets in the order of the script, for given tier names. *)
Definition write_order (tier_names : list string) : list path :=
  doc_ref :: map tier_ref tier_names
  ++ [comp_ref; b2b_ref; wl_ref; insights_ref; index_ref].

(** The closing lines of a run over [total_tiers] tiers. *)
Definition summary (total_tiers : nat) : list string :=
  [ String "010"%char "=== Upload Complete ===";
    "Firestore path: ai_music_studio/pricing_strategy";
    ("Total tiers: " ++ format_nat total_tiers)%string;
    "Research version: v1_2026_01_05";
    "Status: Active" ].

(** The store after a list of writes, oldest first. *)
Definition store_after (ws : list (path * value)) (store : gmap path value)
  : gmap path value :=
  fold_left (fun m w => <[fst w := snd w]> m) ws store.

Section Plan.

Variable env : Env.

(** A step run as the script runs it: read the clock, write, report. *)
Definition perform (s : step) : M unit :=
  now <- utcnow env ;;
  doc_set env (target s) (record_at s now) ;;
  print (report s).

(** The index of the first of [n] calls of [set], counted from call
    number [from], that raises. *)
Fixpoint first_fault (from n : nat) : option nat :=
  match n with
  | 0 => None
  | S n' =>
      if set_raises env from then Some 0
      else S <$> first_fault (S from) n'
  end.

(** The records of a list of steps when the first is stamped with
    clock reading number [from]. *)
Fixpoint records (from : nat) (steps : list step) : list (path * value) :=
  match steps with
  | [] => []
  | s :: rest =>
      (target s, record_at s (utcnow_at env from)) :: records (S from) rest
  end.

(** The world after a step has gone through. *)
Definition committed (s : step) (w : World) : World :=
  {| reads := S (reads w);
     attempts := S (attempts w);
     docs := <[target s := record_at s (utcnow_at env (reads w))]> (docs w);
     writes := writes w ++ [(target s, record_at s (utcnow_at env (reads w)))];
     stdout := stdout w ++ [report s] |}.

Definition completed (steps : list step) (w : World) : World :=
  fold_left (fun w s => committed s w) steps w.

End Plan.

(** The world when a step's write has raised. *)
Definition interrupted (w : World) : World :=
  {| reads := S (reads w); attempts := S (attempts w); docs := docs w;
     writes := writes w; stdout := stdout w |}.

(** The world after the closing lines. *)
Definition concluded (total_tiers : nat) (w : World) : World :=
  {| reads := reads w; attempts := attempts w; docs := docs w;
     writes := writes w; stdout := stdout w ++ summary total_tiers |}.

(** A record without some of its top-level fields. *)
Definition without (ks : list string) (v : value) : value :=
  match v with
  | VDict d => VDict (fold_right Dict.remove d ks)
  | _ => v
  end.

(** ** Runs *)

(** A run of the script over a parsed tree, from a given store. *)
Definition run (env : Env) (tree : value) (store : gmap path value)
  : (exn + unit) * World :=
  upload_pricing_research env tree (start store).

(** The writes a run over [tree] makes when none of them raises. *)
Definition expected_writes (env : Env) (tree : value) : list (path * value) :=
  records env 0 (plan tree).

(** The fields that hold a clock reading. *)
Definition clock_fields : list string :=
  ["updated_at"; "uploaded_at"; "last_updated"].

(** ** Sample inputs *)

(** The end-to-end scenario: two tiers, two sources. *)
Definition example_tree : value :=
  VDict [("recommended_pricing_tiers",
          VDict [("tier_structure",
                  VDict [("free", VDict [("price", VInt 0)]);
                         ("pro", VDict [("price", VFloat "9.99")])]);
                 ("b2b_api_pricing", VDict [("rate", VFloat "0.01")]);
                 ("white_label_reseller", VDict [("fee", VInt 500)])]);
         ("competitor_pricing", VDict [("a", VInt 1)]);
         ("key_insights", VDict [("note", VStr "x")]);
         ("sources", VList [VStr "s1"; VStr "s2"])].

(** The same tree without any tier. *)
Definition tierless_tree : value :=
  VDict [("recommended_pricing_tiers",
          VDict [("tier_structure", VDict []);
                 ("b2b_api_pricing", VDict [("rate", VFloat "0.01")]);
                 ("white_label_reseller", VDict [("fee", VInt 500)])]);
         ("competitor_pricing", VDict [("a", VInt 1)]);
         ("key_insights", VDict [("note", VStr "x")]);
         ("sources", VList [VStr "s1"; VStr "s2"])].

(** A tree whose sections already carry the fields the script adds. *)
Definition shadowing_tree : value :=
  VDict [("recommended_pricing_tiers",
          VDict [("tier_structure",
                  VDict [("free", VDict [("tier_id", VStr "gratis");
                                         ("price", VInt 0);
                                         ("updated_at", VStr "yesterday")])]);
                 ("b2b_api_pricing", VDict [("updated_at", VInt 1)]);
                 ("white_label_reseller", VDict [("updated_at", VNone)])]);
         ("competitor_pricing", VDict []);
         ("key_insights", VDict [("updated_at", VStr "never");
                                 ("tier_id", VStr "kept")]);
         ("sources", VList [])].

(** A tree whose pricing section has no [tier_structure]. *)
Definition tree_without_tiers : value :=
  VDict [("recommended_pricing_tiers", VDict []);
         ("competitor_pricing", VDict []);
         ("key_insights", VDict []);
         ("sources", VList [])].

(** A store that takes every write; the clock advances by one per
    reading, from [t0]. *)
Definition steady (t0 : Z) : Env :=
  {| utcnow_at := fun n => (t0 + Z.of_nat n)%Z; set_raises := fun _ => false |}.

(** A store whose call number [k] of [set] raises. *)
Definition failing_at (k : nat) (t0 : Z) : Env :=
  {| utcnow_at := fun n => (t0 + Z.of_nat n)%Z; set_raises := Nat.eqb k |}.

(** ** What every run has in common *)

Definition is_write_error {A} (r : exn + A) : bool :=
  match r with inl WriteError => true | _ => false end.

(** [orderly env c targets post]: from any world, [c] writes to an
    initial segment of [targets], in that order, each write going
    through before the next call of [set]; the store ends up as the
    writes leave it; when a call of [set] raises, [c] ends there with
    that error; and when [c] returns, it has written to all of [targets]
    and its result satisfies [post]. *)
Definition orderly {A} (env : Env) (c : M A) (targets : list path)
    (post : A → Prop) : Prop :=
  ∀ w, ∃ new : list (path * value),
    writes (c w).2 = writes w ++ new
    ∧ docs (c w).2 = store_after new (docs w)
    ∧ attempts (c w).2
      = attempts w + List.length new + (if is_write_error (c w).1 then 1 else 0)
    ∧ (∀ j, j < List.length new → set_raises env (attempts w + j) = false)
    ∧ match (c w).1 with
      | inr a => map fst new = targets ∧ post a
      | inl e =>
          map fst new `prefix_of` targets
          ∧ (e = WriteError →
             set_raises env (attempts w + List.length new) = true)
      end.

(** ** Further vocabulary *)

(** The keys the script assigns in the loaded tree. *)
Definition metadata_keys : list string :=
  ["uploaded_at"; "uploaded_by"; "version"; "status"].

(** The field under which the record written to [p] carries its clock
    reading. *)
Definition clock_field (p : path) : string :=
  if decide (p = doc_ref) then "uploaded_at"
  else if decide (p = index_ref) then "last_updated"
  else "updated_at".

(** A tier key the client makes a document reference of. *)
Definition addressable (tier_name : string) : bool :=
  match document_reference (tier_ref tier_name) with
  | inr _ => true
  | inl _ => false
  end.

(** Every tier key of the tree is one. *)
Definition tiers_addressable (tree : value) : bool :=
  forallb (fun kv => addressable (fst kv)) (tier_structure tree).

(** The first tier the loop cannot write: its position among the tiers
    and the exception.  The reference is built from the key first, then
    the value is spread into the record. *)
Fixpoint first_bad_tier (items : dict) : option (nat * exn) :=
  match items with
  | [] => None
  | (tier_name, tier_data) :: rest =>
      match document_reference (tier_ref tier_name) with
      | inl e => Some (0, e)
      | inr _ =>
          match spread tier_data with
          | inl e => Some (0, e)
          | inr _ => prod_map S id <$> first_bad_tier rest
          end
      end
  end.

(** An operation made when [n] writes have been asked for: its
    exception, or what follows it. *)
Definition after_writes {A} (n : nat) (r : exn + A)
    (k : A -> option (nat * exn)) : option (nat * exn) :=
  match r with
  | inl e => Some (n, e)
  | inr a => k a
  end.

(** The first of the script's own operations that raises, in the order
    the script makes them: how many writes it has asked for by then,
    and the exception.  The four assignments need a mapping; the keys
    read afterwards are none of the four assigned, so they are looked
    up in the tree as loaded.  Of the references, those of the tiers
    are built from the input; the other six have fixed ids and an even
    number of segments. *)
Definition script_error (tree : value) : option (nat * exn) :=
  after_writes 0 (setitem tree "uploaded_at" VNone) (fun _ =>
  after_writes 1 (getitem tree "recommended_pricing_tiers") (fun pricing =>
  after_writes 1 (getitem pricing "tier_structure") (fun tiers =>
  after_writes 1 (items_of tiers) (fun tier_items =>
  match first_bad_tier tier_items with
  | Some (j, e) => Some (S j, e)
  | None =>
  let n := List.length tier_items in
  after_writes (n + 1) (getitem tree "competitor_pricing") (fun _ =>
  after_writes (n + 2) (getitem pricing "b2b_api_pricing") (fun b2b =>
  after_writes (n + 2) (spread b2b) (fun _ =>
  after_writes (n + 3) (getitem pricing "white_label_reseller") (fun wl =>
  after_writes (n + 3) (spread wl) (fun _ =>
  after_writes (n + 4) (getitem tree "key_insights") (fun insights =>
  after_writes (n + 4) (spread insights) (fun _ =>
  after_writes (n + 5) (getitem tree "sources") (fun srcs =>
  after_writes (n + 5) (len srcs) (fun _ => None)))))))))
  end)))).

(** The sample tree with a first tier whose key the client splits
    into three segments: its document lies two collections further
    down. *)
Definition tree_with_nested_key : value :=
  VDict [("recommended_pricing_tiers",
          VDict [("tier_structure",
                  VDict [("eu/west/pro", VDict [("price", VInt 9)]);
                         ("team", VDict [("price", VInt 49)])]);
                 ("b2b_api_pricing", VDict [("rate", VFloat "0.01")]);
                 ("white_label_reseller", VDict [("fee", VInt 500)])]);
         ("competitor_pricing", VDict [("a", VInt 1)]);
         ("key_insights", VDict [("note", VStr "x")]);
         ("sources", VList [VStr "s1"; VStr "s2"])].

(** The sample tree with a second tier whose key the client splits
    into two segments, which name a collection, not a document. *)
Definition tree_with_split_key : value :=
  VDict [("recommended_pricing_tiers",
          VDict [("tier_structure",
                  VDict [("free", VDict [("price", VInt 0)]);
                         ("eu/pro", VDict [("price", VInt 9)]);
                         ("team", VDict [("price", VInt 49)])]);
                 ("b2b_api_pricing", VDict [("rate", VFloat "0.01")]);
                 ("white_label_reseller", VDict [("fee", VInt 500)])]);
         ("competitor_pricing", VDict [("a", VInt 1)]);
         ("key_insights", VDict [("note", VStr "x")]);
         ("sources", VList [VStr "s1"; VStr "s2"])].

(** A store that holds the document of a tier, [legacy], which the
    sample tree does not have, and a document of another application. *)
Definition used_store : gmap path value :=
  <[tier_ref "legacy" := VDict [("price", VInt 5)]]>
    (<[["other_app"; "settings"] := VDict [("theme", VStr "dark")]]> ∅).

(** * Properties *)

(** ** Dicts *)

Module DictFacts.

Lemma get_set_eq k v d : Dict.get k (Dict.set k v d) = Some v.
Proof.
  induction d as [|[k' v'] d IH]; simpl.
  - by rewrite String.eqb_refl.
  - destruct (String.eqb k k') eqn:E; simpl; rewrite ?E, ?String.eqb_refl; done.
Qed.

Lemma get_set_ne k k' v d :
  k ≠ k' → Dict.get k (Dict.set k' v d) = Dict.get k d.
Proof.
  intros Hne. apply String.eqb_neq in Hne as Hkk'.
  induction d as [|[k0 v0] d IH]; simpl.
  - by rewrite Hkk'.
  - destruct (String.eqb k' k0) eqn:E; simpl.
    + apply String.eqb_eq in E as <-. by rewrite Hkk'.
    + by rewrite IH.
Qed.

Lemma remove_set_eq k v d : Dict.remove k (Dict.set k v d) = Dict.remove k d.
Proof.
  induction d as [|[k' v'] d IH]; simpl.
  - by rewrite String.eqb_refl.
  - destruct (String.eqb k k') eqn:E; simpl; rewrite ?E, ?String.eqb_refl, ?IH; done.
Qed.

Lemma remove_set_ne k k' v d :
  k ≠ k' →
  Dict.remove k (Dict.set k' v d) = Dict.set k' v (Dict.remove k d).
Proof.
  intros Hne. apply String.eqb_neq in Hne as Hkk'.
  induction d as [|[k0 v0] d IH]; simpl.
  - by rewrite Hkk'.
  - destruct (String.eqb k' k0) eqn:E; simpl.
    + apply String.eqb_eq in E as <-. rewrite Hkk'. simpl.
      by rewrite String.eqb_refl.
    + destruct (String.eqb k k0) eqn:E'; simpl; rewrite ?E, IH; done.
Qed.

End DictFacts.

(** ** The monad *)

Lemma bind_lift_inr {A B} (a : A) (k : A → M B) w :
  bind (lift (inr a)) k w = k a w.
Proof. reflexivity. Qed.

Lemma bind_lift_inl {A B} e (k : A → M B) w :
  bind (lift (inl e)) k w = (inl e, w).
Proof. reflexivity. Qed.

Lemma bind_assoc {A B C} (c : M A) (k : A → M B) (k' : B → M C) w :
  bind (bind c k) k' w = bind c (fun a => bind (k a) k') w.
Proof. unfold bind. by destruct (c w) as [[e|a] w']. Qed.

Lemma bind_ext {A B} (c : M A) (k k' : A → M B) w :
  (∀ a w', k a w' = k' a w') → bind c k w = bind c k' w.
Proof. intros H. unfold bind. by destruct (c w) as [[e|a] w']. Qed.

Lemma for_each_app {A} (xs ys : list A) (body : A → M unit) w :
  for_each (xs ++ ys) body w
  = bind (for_each xs body) (fun _ => for_each ys body) w.
Proof.
  revert w. induction xs as [|x xs IH]; intros w; simpl; [done|].
  rewrite bind_assoc. by apply bind_ext.
Qed.

Lemma for_each_ext {A} (xs : list A) (f g : A → M unit) w :
  Forall (fun x => ∀ w', f x w' = g x w') xs →
  for_each xs f w = for_each xs g w.
Proof.
  intros H. revert w. induction H as [|x xs Hx _ IH]; intros w; simpl; [done|].
  unfold bind. rewrite Hx. destruct (g x w) as [[e|[]] w']; [done|apply IH].
Qed.

Lemma for_each_map {A B} (h : A → B) (xs : list A) (f : B → M unit) w :
  for_each (map h xs) f w = for_each xs (fun x => f (h x)) w.
Proof.
  revert w. induction xs as [|x xs IH]; intros w; simpl; [done|].
  by apply bind_ext.
Qed.

(** ** References *)

Lemma split_path_nonempty s : split_path s ≠ [].
Proof.
  destruct s as [|c s]; simpl; [done|].
  destruct (Ascii.eqb c "/"); [done|]. by destruct (split_path s).
Qed.

(** Joining the segments of a string gives the string back. *)
Lemma join_split_path s : join_path (split_path s) = s.
Proof.
  unfold join_path. induction s as [|c s IH]; [done|]. cbn [split_path].
  pose proof (split_path_nonempty s) as Hne.
  destruct (split_path s) as [|seg segs]; [done|]. clear Hne.
  destruct (Ascii.eqb c "/") eqn:Hc.
  - apply Ascii.eqb_eq in Hc as ->.
    change (String.concat "/" ("" :: seg :: segs))
      with ("" +:+ "/" +:+ String.concat "/" (seg :: segs)).
    by rewrite IH.
  - destruct segs as [|seg' segs].
    + simpl in *. by rewrite IH.
    + change (String.concat "/" (String c seg :: seg' :: segs))
        with (String c (seg +:+ "/" +:+ String.concat "/" (seg' :: segs))).
      f_equal. exact IH.
Qed.

Lemma split_path_inj : Inj (=) (=) split_path.
Proof.
  intros a b H. by rewrite <- (join_split_path a), H, join_split_path.
Qed.

(** The document of a tier lies below the collection [tiers], as deep
    as its key has segments. *)
Lemma tier_ref_segments name :
  tier_ref name = collection strategy "tiers" ++ split_path name.
Proof. reflexivity. Qed.

Lemma tier_ref_inj : Inj (=) (=) tier_ref.
Proof.
  intros a b H. rewrite !tier_ref_segments in H.
  by apply app_inv_head, split_path_inj in H.
Qed.

(** The client accepts the references with fixed ids, and the
    collections on the way to them. *)
Lemma fixed_references_accepted :
  Forall (fun p => document_reference p = inr p)
    [strategy; doc_ref; comp_ref; b2b_ref; wl_ref; insights_ref; index_ref]
  ∧ Forall (fun p => verify_path p true = inr tt)
      [collection db "ai_music_studio"; collection strategy "research";
       collection strategy "tiers"; collection strategy "competitors";
       collection strategy "b2b_models"; collection strategy "analytics"].
Proof. split; by repeat constructor. Qed.

Lemma document_reference_inr p q : document_reference p = inr q → q = p.
Proof.
  unfold document_reference. destruct (verify_path p false); congruence.
Qed.

Lemma addressable_reference name :
  addressable name = true →
  document_reference (tier_ref name) = inr (tier_ref name).
Proof.
  unfold addressable.
  destruct (document_reference (tier_ref name)) as [e|q] eqn:E; [done|].
  by apply document_reference_inr in E as ->.
Qed.

Lemma bind_reference {B} p (k : path → M B) w :
  document_reference p = inr p →
  bind (lift (document_reference p)) k w = k p w.
Proof. by intros ->. Qed.

Section PlanFacts.

Variable env : Env.

Lemma perform_run s w :
  perform env s w =
  if set_raises env (attempts w) then (inl WriteError, interrupted w)
  else (inr tt, committed env s w).
Proof.
  unfold perform, bind, utcnow, doc_set, print; simpl.
  by destruct (set_raises env (attempts w)).
Qed.

(** A list of steps runs up to the first write that raises. *)
Lemma for_each_perform steps w :
  for_each steps (perform env) w =
  match first_fault env (attempts w) (List.length steps) with
  | None => (inr tt, completed env steps w)
  | Some k => (inl WriteError, interrupted (completed env (take k steps) w))
  end.
Proof.
  revert w. induction steps as [|s steps IH]; intros w; simpl; [done|].
  unfold bind. rewrite perform_run.
  destruct (set_raises env (attempts w)); [done|].
  rewrite IH. simpl.
  by destruct (first_fault env (S (attempts w)) (List.length steps)).
Qed.

Lemma upload_tier_perform item w :
  addressable (fst item) = true →
  is_dict (snd item) = true →
  upload_tier env item w = perform env (tier_step item) w.
Proof.
  destruct item as [name data]. intros Hname Hdata.
  unfold upload_tier. rewrite bind_reference by by apply addressable_reference.
  by destruct data.
Qed.

End PlanFacts.

Lemma shaped_inv tree :
  shaped tree = true →
  ∃ d pricing tiers b2b wl comp ins srcs total,
    tree = VDict d
    ∧ Dict.get "recommended_pricing_tiers" d = Some (VDict pricing)
    ∧ Dict.get "tier_structure" pricing = Some (VDict tiers)
    ∧ forallb (fun kv => is_dict (snd kv)) tiers = true
    ∧ Dict.get "b2b_api_pricing" pricing = Some (VDict b2b)
    ∧ Dict.get "white_label_reseller" pricing = Some (VDict wl)
    ∧ Dict.get "competitor_pricing" d = Some comp
    ∧ Dict.get "key_insights" d = Some (VDict ins)
    ∧ Dict.get "sources" d = Some srcs
    ∧ len srcs = inr total.
Proof.
  unfold shaped, has, field, sized. intros H.
  repeat (apply andb_prop in H as [H ?]).
  destruct tree as [| | | | | |d|]; try discriminate.
  destruct (Dict.get "recommended_pricing_tiers" d)
    as [[| | | | | |pricing|]|] eqn:Hp; try discriminate.
  repeat (apply andb_prop in H as [H ?]).
  destruct (Dict.get "tier_structure" pricing)
    as [[| | | | | |tiers|]|] eqn:Ht; try discriminate.
  destruct (Dict.get "b2b_api_pricing" pricing)
    as [[| | | | | |b2b|]|] eqn:Hb; try discriminate.
  destruct (Dict.get "white_label_reseller" pricing)
    as [[| | | | | |wl|]|] eqn:Hw; try discriminate.
  destruct (Dict.get "competitor_pricing" d) as [comp|] eqn:Hc;
    try discriminate.
  destruct (Dict.get "key_insights" d)
    as [[| | | | | |ins|]|] eqn:Hi; try discriminate.
  destruct (Dict.get "sources" d) as [srcs|] eqn:Hs; try discriminate.
  destruct (len srcs) as [|total] eqn:Hn; try discriminate.
  by exists d, pricing, tiers, b2b, wl, comp, ins, srcs, total.
Qed.

Lemma sections_of_shaped d pricing tiers b2b wl comp ins srcs :
  Dict.get "recommended_pricing_tiers" d = Some (VDict pricing) →
  Dict.get "tier_structure" pricing = Some (VDict tiers) →
  Dict.get "b2b_api_pricing" pricing = Some (VDict b2b) →
  Dict.get "white_label_reseller" pricing = Some (VDict wl) →
  Dict.get "competitor_pricing" d = Some comp →
  Dict.get "key_insights" d = Some (VDict ins) →
  Dict.get "sources" d = Some srcs →
  tier_structure (VDict d) = tiers
  ∧ b2b_api_pricing (VDict d) = b2b
  ∧ white_label_reseller (VDict d) = wl
  ∧ competitor_pricing (VDict d) = comp
  ∧ key_insights (VDict d) = ins
  ∧ section_of ["sources"] (VDict d) = srcs.
Proof.
  intros Hp Ht Hb Hw Hc Hi Hs.
  unfold tier_structure, b2b_api_pricing, white_label_reseller,
    competitor_pricing, key_insights, sources, section_of; simpl.
  rewrite Hp, Hc, Hi, Hs; simpl. by rewrite Ht, Hb, Hw.
Qed.

Section Steps.

Variable env : Env.

Lemma bind_perform {B} s (k : unit → M B) w :
  bind (perform env s) k w =
  if set_raises env (attempts w) then (inl WriteError, interrupted w)
  else k tt (committed env s w).
Proof.
  unfold bind. rewrite perform_run. by destruct (set_raises env (attempts w)).
Qed.

Lemma bind_doc_set {B} p v (k : unit → M B) w :
  bind (doc_set env p v) k w =
  if set_raises env (attempts w) then
    (inl WriteError,
     {| reads := reads w; attempts := S (attempts w); docs := docs w;
        writes := writes w; stdout := stdout w |})
  else
    k tt {| reads := reads w; attempts := S (attempts w);
            docs := <[p := v]> (docs w);
            writes := writes w ++ [(p, v)]; stdout := stdout w |}.
Proof.
  unfold bind, doc_set. by destruct (set_raises env (attempts w)).
Qed.

Lemma bind_for_each_app {A B} (xs ys : list A) f (k : unit → M B) w :
  bind (for_each (xs ++ ys) f) k w =
  bind (for_each xs f) (fun _ => bind (for_each ys f) k) w.
Proof.
  unfold bind at 1. rewrite for_each_app.
  fold (bind (bind (for_each xs f) (fun _ => for_each ys f)) k w).
  apply bind_assoc.
Qed.

Lemma bind_for_each_cons {A B} (x : A) xs f (k : unit → M B) w :
  bind (for_each (x :: xs) f) k w =
  bind (f x) (fun _ => bind (for_each xs f) k) w.
Proof. apply bind_assoc. Qed.

Lemma bind_cong {A B} (c c' : M A) (k k' : A → M B) w :
  c w = c' w → (∀ a w', k a w' = k' a w') → bind c k w = bind c' k' w.
Proof.
  intros Hc Hk. unfold bind. rewrite Hc. by destruct (c' w) as [[e|a] w'].
Qed.

Lemma bind_utcnow {B} (k : Z → M B) w :
  bind (utcnow env) k w =
  k (utcnow_at env (reads w))
    {| reads := S (reads w); attempts := attempts w; docs := docs w;
       writes := writes w; stdout := stdout w |}.
Proof. reflexivity. Qed.

Lemma bind_print {B} line (k : unit → M B) w :
  bind (print line) k w =
  k tt {| reads := reads w; attempts := attempts w; docs := docs w;
          writes := writes w; stdout := stdout w ++ [line] |}.
Proof. reflexivity. Qed.

(** The metadata keys are none of the keys the script reads back. *)
Lemma getitem_stamp now d k :
  k ≠ "uploaded_at" → k ≠ "uploaded_by" → k ≠ "version" → k ≠ "status" →
  getitem (VDict (stamp now d)) k = getitem (VDict d) k.
Proof.
  intros. unfold getitem, stamp. by rewrite !DictFacts.get_set_ne.
Qed.

Lemma getitem_stamped now d k :
  k ≠ "uploaded_at" → k ≠ "uploaded_by" → k ≠ "version" → k ≠ "status" →
  getitem
    (VDict
       (Dict.set "status" (VStr "active")
          (Dict.set "version" (VStr "v1.0")
             (Dict.set "uploaded_by" (VStr "claude-sonnet-4-5")
                (Dict.set "uploaded_at" (VDatetime now) d))))) k
  = getitem (VDict d) k.
Proof. apply getitem_stamp. Qed.

End Steps.

(** Run the pure commands at the head of the left-hand side. *)
Ltac pure_steps :=
  repeat lazymatch goal with
    | |- bind (lift (inr _)) _ _ = _ => rewrite bind_lift_inr; cbv beta
    | |- bind (lift (setitem (VDict _) _ _)) _ _ = _ => cbn [setitem]
    | |- bind (lift (spread (VDict _))) _ _ = _ => cbn [spread]
    | |- bind (lift (items_of (VDict _))) _ _ = _ => cbn [items_of]
    | H : len ?v = _ |- bind (lift (len ?v)) _ _ = _ => rewrite H
    | |- bind (lift (len (VDict _))) _ _ = _ => cbn [len]
    | |- bind (lift (getitem (VDict (Dict.set _ _ _)) _)) _ _ = _ =>
        rewrite getitem_stamped by done
    | H : getitem ?v ?k = _ |- bind (lift (getitem ?v ?k)) _ _ = _ =>
        rewrite H
    | |- bind (lift (document_reference ?p)) _ _ = _ =>
        rewrite (bind_reference p) by reflexivity
    | |- bind (lift (inl _)) _ _ = _ => rewrite bind_lift_inl
    end.

(** Run one write on both sides: the clock reading, the write, which
    either raises on both sides or goes through on both, and the
    report; then forget how the world came about. *)
Ltac write_step w' :=
  pure_steps; rewrite bind_utcnow; cbv beta; pure_steps;
  rewrite bind_doc_set, bind_for_each_cons, bind_perform;
  unfold committed, interrupted, competitors_record, section_record,
    index_record;
  cbn [reads attempts docs writes stdout target record_at report];
  destruct (set_raises _ _); [reflexivity|];
  cbv beta; rewrite bind_print; cbv beta;
  cbn [reads attempts docs writes stdout];
  set (w' := Build_World _ _ _ _ _); clearbody w'.

Section RunFacts.

Variable env : Env.

Lemma upload_as_plan tree w :
  shaped tree = true →
  tiers_addressable tree = true →
  upload_pricing_research env tree w =
  bind (for_each (plan tree) (perform env))
       (fun _ w' =>
          (inr tt, concluded (List.length (tier_structure tree)) w')) w.
Proof.
  intros (d & pricing & tiers & b2b & wl & comp & ins & srcs & total & ->
          & Hp & Ht & Htiers & Hb & Hw & Hc & Hi & Hs & Hn)%shaped_inv.
  destruct (sections_of_shaped _ _ _ _ _ _ _ _ Hp Ht Hb Hw Hc Hi Hs)
    as (Et & Eb & Ew & Ec & Ei & Es).
  unfold tiers_addressable. rewrite Et. intros Hnames.
  unfold plan, main_step, competitors_step, b2b_step, white_label_step,
    insights_step, index_step.
  rewrite Et, Eb, Ew, Ec, Ei, Es. clear Et Eb Ew Ec Ei Es.
  cbn [attrs_of]. unfold size_of. rewrite Hn.
  unfold upload_pricing_research.
  assert (Gp : getitem (VDict d) "recommended_pricing_tiers"
               = inr (VDict pricing))
    by (unfold getitem; by rewrite Hp).
  assert (Gt : getitem (VDict pricing) "tier_structure" = inr (VDict tiers))
    by (unfold getitem; by rewrite Ht).
  assert (Gb : getitem (VDict pricing) "b2b_api_pricing" = inr (VDict b2b))
    by (unfold getitem; by rewrite Hb).
  assert (Gw : getitem (VDict pricing) "white_label_reseller"
               = inr (VDict wl))
    by (unfold getitem; by rewrite Hw).
  assert (Gc : getitem (VDict d) "competitor_pricing" = inr comp)
    by (unfold getitem; by rewrite Hc).
  assert (Gi : getitem (VDict d) "key_insights" = inr (VDict ins))
    by (unfold getitem; by rewrite Hi).
  assert (Gs : getitem (VDict d) "sources" = inr srcs)
    by (unfold getitem; by rewrite Hs).
  clear Hp Ht Hb Hw Hc Hi Hs.
  write_step w0. pure_steps.
  rewrite bind_for_each_app.
  apply bind_cong.
  { rewrite for_each_map. apply for_each_ext.
    apply Forall_forall. intros item Hitem%list_elem_of_In w'.
    apply upload_tier_perform.
    - exact (proj1 (forallb_forall _ _) Hnames item Hitem).
    - exact (proj1 (forallb_forall _ _) Htiers item Hitem). }
  intros [] w1.
  write_step w2. write_step w3. write_step w4. write_step w5.
  write_step w6. pure_steps.
  unfold bind, print, lift, concluded, summary; cbn.
  by rewrite <- !app_assoc.
Qed.
End RunFacts.

Section Outcome.

Variable env : Env.

Lemma completed_cons s steps w :
  completed env (s :: steps) w = completed env steps (committed env s w).
Proof. reflexivity. Qed.

Lemma completed_reads steps w :
  reads (completed env steps w) = reads w + List.length steps.
Proof.
  revert w. induction steps as [|s steps IH]; intros w.
  - simpl. lia.
  - rewrite completed_cons, IH. simpl. lia.
Qed.

Lemma completed_attempts steps w :
  attempts (completed env steps w) = attempts w + List.length steps.
Proof.
  revert w. induction steps as [|s steps IH]; intros w.
  - simpl. lia.
  - rewrite completed_cons, IH. simpl. lia.
Qed.

Lemma completed_writes steps w :
  writes (completed env steps w) = writes w ++ records env (reads w) steps.
Proof.
  revert w. induction steps as [|s steps IH]; intros w.
  - simpl. by rewrite app_nil_r.
  - rewrite completed_cons, IH. simpl. by rewrite <- app_assoc.
Qed.

Lemma completed_docs steps w :
  docs (completed env steps w)
  = store_after (records env (reads w) steps) (docs w).
Proof.
  revert w. induction steps as [|s steps IH]; intros w; [done|].
  by rewrite completed_cons, IH.
Qed.

Lemma records_targets from steps :
  map fst (records env from steps) = map target steps.
Proof.
  revert from. induction steps as [|s steps IH]; intros from; simpl;
    [done|by rewrite IH].
Qed.

Lemma records_length from steps :
  List.length (records env from steps) = List.length steps.
Proof.
  revert from. induction steps as [|s steps IH]; intros from; simpl;
    [done|by rewrite IH].
Qed.

Lemma records_take from k steps :
  records env from (take k steps) = take k (records env from steps).
Proof.
  revert from k. induction steps as [|s steps IH]; intros from [|k]; simpl;
    [done..|by rewrite IH].
Qed.

Lemma records_app from xs ys :
  records env from (xs ++ ys)
  = records env from xs ++ records env (from + List.length xs) ys.
Proof.
  revert from. induction xs as [|x xs IH]; intros from; simpl.
  - by rewrite Nat.add_0_r.
  - rewrite IH. do 3 f_equal. lia.
Qed.

Lemma records_lookup from steps i s :
  steps !! i = Some s →
  records env from steps !! i
  = Some (target s, record_at s (utcnow_at env (from + i))).
Proof.
  revert from i. induction steps as [|s' steps IH]; intros from [|i] H;
    simplify_eq/=.
  - by rewrite Nat.add_0_r.
  - rewrite (IH _ _ H). do 4 f_equal. lia.
Qed.

Lemma first_fault_None from n :
  first_fault env from n = None ↔
  ∀ j, j < n → set_raises env (from + j) = false.
Proof.
  revert from. induction n as [|n IH]; intros from; simpl.
  - split; [intros _ j Hj; lia|done].
  - destruct (set_raises env from) eqn:E.
    + split; [done|]. intros H. specialize (H 0). rewrite Nat.add_0_r in H.
      rewrite H in E; [done|lia].
    + destruct (first_fault env (S from) n) eqn:F; simpl.
      * split; [done|]. intros H.
        assert (first_fault env (S from) n = None) as F'; [|congruence].
        apply IH. intros j Hj. specialize (H (S j)).
        rewrite Nat.add_succ_r in H. apply H. lia.
      * split; [|done]. intros _ [|j] Hj.
        -- by rewrite Nat.add_0_r.
        -- rewrite Nat.add_succ_r. apply (proj1 (IH (S from)) F). lia.
Qed.

Lemma first_fault_Some from n k :
  first_fault env from n = Some k →
  k < n ∧ set_raises env (from + k) = true
  ∧ ∀ j, j < k → set_raises env (from + j) = false.
Proof.
  revert from k. induction n as [|n IH]; intros from k; simpl; [done|].
  destruct (set_raises env from) eqn:E.
  - intros [= <-]. rewrite Nat.add_0_r. repeat split; [lia|done|lia].
  - destruct (first_fault env (S from) n) as [k'|] eqn:F; simpl; [|done].
    intros [= <-]. destruct (IH _ _ F) as (Hk & Hf & Hlt).
    rewrite Nat.add_succ_r. repeat split; [lia|done|].
    intros [|j] Hj; [by rewrite Nat.add_0_r|].
    rewrite Nat.add_succ_r. apply Hlt. lia.
Qed.

(** Every run over a tree of the right shape whose tier keys make
    document references: the steps of the plan in order, up to the
    first write that raises. *)
Theorem run_shaped tree w :
  shaped tree = true →
  tiers_addressable tree = true →
  upload_pricing_research env tree w =
  match first_fault env (attempts w) (List.length (plan tree)) with
  | None =>
      (inr tt,
       concluded (List.length (tier_structure tree))
                 (completed env (plan tree) w))
  | Some k =>
      (inl WriteError, interrupted (completed env (take k (plan tree)) w))
  end.
Proof.
  intros Hs Ha. rewrite (upload_as_plan env tree w Hs Ha).
  unfold bind. rewrite for_each_perform.
  by destruct (first_fault env (attempts w) (List.length (plan tree))).
Qed.

End Outcome.

Lemma plan_length tree :
  List.length (plan tree) = List.length (tier_structure tree) + 6.
Proof.
  unfold plan. simpl. rewrite length_app, length_map. simpl. lia.
Qed.

Lemma plan_targets tree :
  map target (plan tree) = write_order (map fst (tier_structure tree)).
Proof.
  unfold plan, write_order. simpl. rewrite map_app, !map_map. done.
Qed.

Lemma write_order_NoDup names : NoDup names → NoDup (write_order names).
Proof.
  intros Hn. unfold write_order.
  apply NoDup_cons. split.
  { intros [H|H]%elem_of_app.
    - apply list_elem_of_fmap in H as (n & H & _). discriminate.
    - repeat (apply elem_of_cons in H as [H|H]; [discriminate|]).
      by apply elem_of_nil in H. }
  apply NoDup_app. repeat split.
  - apply (@NoDup_fmap_2 _ _ tier_ref tier_ref_inj), Hn.
  - intros p (n & -> & _)%list_elem_of_fmap H.
    repeat (apply elem_of_cons in H as [H|H]; [discriminate|]).
    by apply elem_of_nil in H.
  - repeat (apply NoDup_cons; split;
            [intros H; repeat (apply elem_of_cons in H as [H|H]; [discriminate|]);
             by apply elem_of_nil in H|]).
    apply NoDup_nil_2.
Qed.

Lemma store_after_snoc ws p v store :
  store_after (ws ++ [(p, v)]) store = <[p := v]> (store_after ws store).
Proof. unfold store_after. by rewrite fold_left_app. Qed.

Lemma store_after_other ws store p :
  p ∉ map fst ws → store_after ws store !! p = store !! p.
Proof.
  induction ws as [|[q v] ws IH] using rev_ind; [done|].
  rewrite map_app, store_after_snoc. simpl.
  intros [Hws Hq%not_elem_of_cons]%not_elem_of_app.
  rewrite lookup_insert_ne; [by apply IH|]. intros ->. by destruct Hq.
Qed.

Lemma store_after_lookup ws store p v :
  NoDup (map fst ws) → (p, v) ∈ ws → store_after ws store !! p = Some v.
Proof.
  induction ws as [|[q u] ws IH] using rev_ind; [by intros _ ?%elem_of_nil|].
  rewrite map_app, store_after_snoc. simpl.
  intros [Hnd [Hq _]]%NoDup_app [H|H]%elem_of_app.
  - assert (p ≠ q).
    { intros ->. apply (Hq q); [|by apply list_elem_of_singleton].
      apply list_elem_of_fmap. by exists (q, v). }
    rewrite lookup_insert_ne by done. by apply IH.
  - apply list_elem_of_singleton in H as [= -> ->]. apply lookup_insert_eq.
Qed.

Lemma valid_get d k v :
  valid (VDict d) = true → Dict.get k d = Some v → valid v = true.
Proof.
  simpl. intros [_ H]%andb_prop. induction d as [|[k' v'] d IH]; [done|].
  simpl in *. apply andb_prop in H as [Hv Hd].
  destruct (String.eqb k k'); [by intros [= <-]|by apply IH].
Qed.

Lemma valid_keys d : valid (VDict d) = true → NoDup (map fst d).
Proof. simpl. intros [H _]%andb_prop. by apply bool_decide_eq_true in H. Qed.

Lemma valid_section ks tree :
  valid tree = true → valid (section_of ks tree) = true.
Proof.
  unfold section_of. revert tree.
  induction ks as [|k ks IH]; intros tree Hv; simpl; [done|].
  apply IH. destruct tree as [| | | | | |d|]; try done. simpl.
  destruct (Dict.get k d) as [v|] eqn:E; [|done]. by apply (valid_get d k).
Qed.

Lemma tier_names_distinct tree :
  valid tree = true → NoDup (map fst (tier_structure tree)).
Proof.
  intros Hv. unfold tier_structure.
  pose proof (valid_section ["recommended_pricing_tiers"; "tier_structure"]
                tree Hv) as H.
  destruct (section_of _ tree); try apply NoDup_nil_2.
  by apply valid_keys.
Qed.

Lemma spread_inr obj attrs : spread obj = inr attrs → obj = VDict attrs.
Proof. destruct obj; simpl; congruence. Qed.

Lemma items_of_inr obj items : items_of obj = inr items → obj = VDict items.
Proof. destruct obj; simpl; congruence. Qed.

Lemma getitem_inr obj k v :
  getitem obj k = inr v → ∃ d, obj = VDict d ∧ Dict.get k d = Some v.
Proof.
  destruct obj as [| | | | | |d|]; simpl; try done.
  destruct (Dict.get k d) as [v'|] eqn:E; [|done]. intros [= <-]. by exists d.
Qed.

Lemma completed_stdout env steps w :
  stdout (completed env steps w) = stdout w ++ map report steps.
Proof.
  revert w. induction steps as [|s steps IH]; intros w.
  - simpl. by rewrite app_nil_r.
  - rewrite completed_cons, IH. simpl. by rewrite <- app_assoc.
Qed.

Lemma completed_writes_length env steps w :
  List.length (writes (completed env steps w))
  = List.length (writes w) + List.length steps.
Proof. by rewrite completed_writes, length_app, records_length. Qed.

(** ** The first operation of the script that raises *)

Lemma first_bad_tier_None items :
  first_bad_tier items = None →
  forallb (fun kv => addressable (fst kv)) items = true
  ∧ forallb (fun kv => is_dict (snd kv)) items = true.
Proof.
  induction items as [|[name data] items IH]; [done|].
  cbn [first_bad_tier forallb fst snd]. unfold addressable at 1.
  destruct (document_reference (tier_ref name)); [done|].
  destruct data; try done. cbn [spread is_dict].
  destruct (first_bad_tier items); [done|]. intros _.
  by destruct (IH eq_refl) as [-> ->].
Qed.

Lemma first_bad_tier_lt items (j : nat) e :
  first_bad_tier items = Some (j, e) → (j < List.length items)%nat.
Proof.
  revert j. induction items as [|[name data] items IH]; intros j; [done|].
  cbn [first_bad_tier List.length].
  destruct (document_reference (tier_ref name)); [intros [= <- <-]; lia|].
  destruct (spread data); [intros [= <- <-]; lia|].
  destruct (first_bad_tier items) as [[j' e']|]; [|done].
  intros [= <- <-]. specialize (IH j' eq_refl). lia.
Qed.

(** The tiers are all written when every key makes a reference and
    every value is a mapping. *)
Lemma first_bad_tier_good items :
  forallb (fun kv => addressable (fst kv)) items
  && forallb (fun kv => is_dict (snd kv)) items
  = match first_bad_tier items with None => true | Some _ => false end.
Proof.
  induction items as [|[name data] items IH]; [done|].
  cbn [forallb first_bad_tier fst snd]. unfold addressable at 1.
  destruct (document_reference (tier_ref name)); [done|].
  destruct data; cbn [spread is_dict andb]; rewrite ?andb_false_r; try done.
  rewrite IH. by destruct (first_bad_tier items).
Qed.

Lemma section_of_one tree k v : getitem tree k = inr v → section_of [k] tree = v.
Proof.
  intros (d & -> & H)%getitem_inr. unfold section_of; simpl. by rewrite H.
Qed.

Lemma section_of_two tree k1 k2 v1 v :
  getitem tree k1 = inr v1 → getitem v1 k2 = inr v →
  section_of [k1; k2] tree = v.
Proof.
  intros (d & -> & H)%getitem_inr (d' & -> & H')%getitem_inr.
  unfold section_of; simpl. rewrite H; simpl. by rewrite H'.
Qed.

Lemma plan_take tree c :
  take (List.length (tier_structure tree) + S c) (plan tree)
  = main_step tree :: map tier_step (tier_structure tree)
    ++ take c [competitors_step tree; b2b_step tree; white_label_step tree;
               insights_step tree; index_step tree].
Proof.
  unfold plan. rewrite Nat.add_succ_r. cbn [firstn]. f_equal.
  rewrite take_app_add'; [done|]. by rewrite length_map.
Qed.

Lemma plan_take_tiers tree (j : nat) :
  (j ≤ List.length (tier_structure tree))%nat →
  take (S j) (plan tree)
  = main_step tree :: map tier_step (take j (tier_structure tree)).
Proof.
  intros Hj. unfold plan. cbn [firstn]. f_equal.
  rewrite take_app_le by (by rewrite length_map).
  symmetry. apply fmap_take.
Qed.

Section Loop.

Variable env : Env.

Lemma tiers_loop_good {B} items (k : unit → M B) w :
  forallb (fun kv => addressable (fst kv)) items = true →
  forallb (fun kv => is_dict (snd kv)) items = true →
  bind (for_each items (upload_tier env)) k w
  = bind (for_each (map tier_step items) (perform env)) k w.
Proof.
  intros Hn H. apply bind_cong; [|done].
  rewrite for_each_map. apply for_each_ext.
  apply Forall_forall. intros item Hitem%list_elem_of_In w'.
  apply upload_tier_perform.
  - exact (proj1 (forallb_forall _ _) Hn item Hitem).
  - exact (proj1 (forallb_forall _ _) H item Hitem).
Qed.

Lemma tiers_loop_bad {B} items j e (k : unit → M B) w :
  first_bad_tier items = Some (j, e) →
  bind (for_each items (upload_tier env)) k w
  = bind (for_each (map tier_step (take j items)) (perform env))
         (fun _ => lift (inl e)) w.
Proof.
  revert j w. induction items as [|[name data] items IH]; intros j w;
    [done|].
  cbn [first_bad_tier].
  destruct (document_reference (tier_ref name)) as [e'|ref] eqn:Hr.
  { intros [= <- <-]. rewrite bind_for_each_cons.
    unfold upload_tier. by rewrite Hr. }
  destruct (spread data) as [e'|attrs] eqn:Hd.
  - intros [= <- <-]. rewrite bind_for_each_cons.
    unfold upload_tier. rewrite Hr.
    destruct data; try discriminate Hd; by injection Hd as <-.
  - destruct (first_bad_tier items) as [[j' e']|]; [|done].
    intros [= <- <-]. cbn [firstn map]. rewrite !bind_for_each_cons.
    apply spread_inr in Hd as ->.
    apply bind_cong.
    + apply upload_tier_perform; [|done]. unfold addressable; simpl.
      by rewrite Hr.
    + intros [] w'. by apply IH.
Qed.

End Loop.

(** Run the lookups at the head of the left-hand side, the failing one
    included. *)
Ltac lookup_steps :=
  repeat first
    [ progress pure_steps
    | lazymatch goal with
      | H : spread ?v = _ |- bind (lift (spread ?v)) _ _ = _ => rewrite H
      | H : items_of ?v = _ |- bind (lift (items_of ?v)) _ _ = _ =>
          rewrite H
      end ].

Ltac open_plan :=
  unfold upload_pricing_research, main_step, competitors_step, b2b_step,
    white_label_step, insights_step, index_step;
  cbn [firstn attrs_of].

Ltac next_write := let w' := fresh "w" in write_step w'.

Ltac next_writes c :=
  lazymatch c with
  | O => idtac
  | S ?c' => next_write; next_writes c'
  end.

(** The branch of an operation that raises when the tiers and [c] of the
    sections that follow them have been written. *)
Ltac fails_after c b :=
  match goal with H : Some _ = Some _ |- _ => injection H as <- <- end;
  exists b; intros ?w;
  match goal with
  | Et : tier_structure ?t = _ |- _ =>
      let Hpl := fresh in
      pose proof (plan_take t c) as Hpl; rewrite Et in Hpl;
      rewrite Hpl; clear Hpl
  end;
  open_plan;
  repeat match goal with
    | E : competitor_pricing _ = _ |- _ => rewrite E; clear E
    | E : b2b_api_pricing _ = _ |- _ => rewrite E; clear E
    | E : white_label_reseller _ = _ |- _ => rewrite E; clear E
    | E : key_insights _ = _ |- _ => rewrite E; clear E
    end;
  next_write; lookup_steps;
  rewrite bind_for_each_app, tiers_loop_good by done;
  apply bind_ext; intros [] ?w;
  next_writes c; lookup_steps;
  try (rewrite bind_utcnow; cbv beta; lookup_steps);
  reflexivity.

Lemma upload_until_script_error env tree n e :
  script_error tree = Some (n, e) →
  ∃ b : bool, ∀ w,
    upload_pricing_research env tree w =
    bind (for_each (take n (plan tree)) (perform env))
         (fun _ => if b then (utcnow env ;; lift (inl e)) else lift (inl e))
         w.
Proof.
  unfold script_error, after_writes. intros H.
  destruct tree as [| | | | | |d|];
    try (injection H as <- <-; exists true; intros w; reflexivity).
  cbn [setitem] in H.
  destruct (getitem (VDict d) "recommended_pricing_tiers")
    as [e1|pricing] eqn:Gp.
  { injection H as <- <-. exists false. intros w.
    unfold plan. open_plan. write_step w0. lookup_steps. reflexivity. }
  destruct (getitem pricing "tier_structure") as [e1|tiers] eqn:Gt.
  { injection H as <- <-. exists false. intros w.
    unfold plan. open_plan. write_step w0. lookup_steps. reflexivity. }
  destruct (items_of tiers) as [e1|items] eqn:Gi.
  { injection H as <- <-. exists false. intros w.
    unfold plan. open_plan. write_step w0. lookup_steps. reflexivity. }
  assert (Et : tier_structure (VDict d) = items).
  { unfold tier_structure. rewrite (section_of_two _ _ _ _ _ Gp Gt).
    by apply items_of_inr in Gi as ->. }
  destruct (first_bad_tier items) as [[j e1]|] eqn:Hbad.
  { injection H as <- <-. exists false. intros w.
    pose proof (first_bad_tier_lt _ _ _ Hbad) as Hj.
    rewrite plan_take_tiers by (rewrite Et; lia). rewrite Et.
    open_plan. write_step w0. lookup_steps.
    by apply tiers_loop_bad. }
  apply first_bad_tier_None in Hbad as [Hnames Hdicts].
  destruct (getitem (VDict d) "competitor_pricing") as [e1|comp] eqn:Gc.
  { fails_after 0 false. }
  assert (Ec : competitor_pricing (VDict d) = comp)
    by apply (section_of_one _ _ _ Gc).
  destruct (getitem pricing "b2b_api_pricing") as [e1|b2b] eqn:Gb.
  { fails_after 1 false. }
  destruct (spread b2b) as [e1|b2b_attrs] eqn:Sb.
  { fails_after 1 false. }
  apply spread_inr in Sb as ->.
  assert (Eb : b2b_api_pricing (VDict d) = b2b_attrs).
  { unfold b2b_api_pricing. by rewrite (section_of_two _ _ _ _ _ Gp Gb). }
  destruct (getitem pricing "white_label_reseller") as [e1|wl] eqn:Gw.
  { fails_after 2 false. }
  destruct (spread wl) as [e1|wl_attrs] eqn:Sw.
  { fails_after 2 false. }
  apply spread_inr in Sw as ->.
  assert (Ew : white_label_reseller (VDict d) = wl_attrs).
  { unfold white_label_reseller.
    by rewrite (section_of_two _ _ _ _ _ Gp Gw). }
  destruct (getitem (VDict d) "key_insights") as [e1|ins] eqn:Gk.
  { fails_after 3 false. }
  destruct (spread ins) as [e1|ins_attrs] eqn:Sk.
  { fails_after 3 false. }
  apply spread_inr in Sk as ->.
  assert (Ek : key_insights (VDict d) = ins_attrs).
  { unfold key_insights. by rewrite (section_of_one _ _ _ Gk). }
  destruct (getitem (VDict d) "sources") as [e1|srcs] eqn:Gs.
  { fails_after 4 true. }
  destruct (len srcs) as [e1|total] eqn:Ls; [|done].
  fails_after 4 true.
Qed.

(** The script gets through all its own operations exactly over the
    trees of the shape described by [shaped] whose tier keys make
    document references. *)
Lemma shaped_script_error tree :
  shaped tree && tiers_addressable tree
  = match script_error tree with None => true | Some _ => false end.
Proof.
  destruct tree as [| | | | | |d|]; try reflexivity.
  unfold shaped, tiers_addressable, tier_structure, section_of, script_error,
    after_writes, has, field, sized, getitem.
  cbn [setitem fold_left].
  destruct (Dict.get "recommended_pricing_tiers" d) as [pricing|]; [|done].
  destruct pricing as [| | | | | |p|]; try done.
  cbn [default from_option id].
  destruct (Dict.get "tier_structure" p) as [tiers|]; [|done].
  destruct tiers as [| | | | | |items|]; try done.
  cbn [items_of dict_of_dicts default from_option id attrs_of].
  pose proof (first_bad_tier_good items) as Hgood.
  destruct (first_bad_tier items) as [[j e]|].
  { apply andb_false_iff in Hgood as [->| ->];
      [apply andb_false_r|by rewrite ?andb_false_r]. }
  apply andb_true_iff in Hgood as [-> ->]. rewrite andb_true_r.
  destruct (Dict.get "competitor_pricing" d); [|by rewrite !andb_false_r].
  destruct (Dict.get "b2b_api_pricing" p) as [b2b|]; [|done].
  destruct b2b; try done.
  destruct (Dict.get "white_label_reseller" p) as [wl|]; [|done].
  destruct wl; try done.
  destruct (Dict.get "key_insights" d) as [ins|]; [|done].
  destruct ins; try done.
  destruct (Dict.get "sources" d) as [srcs|]; [|done].
  simpl. by destruct (len srcs).
Qed.

Lemma script_error_None tree :
  script_error tree = None ↔
  shaped tree = true ∧ tiers_addressable tree = true.
Proof.
  rewrite <- andb_true_iff, shaped_script_error.
  by destruct (script_error tree).
Qed.

Lemma script_error_bound tree (n : nat) e :
  script_error tree = Some (n, e) →
  (n < List.length (plan tree))%nat.
Proof.
  rewrite plan_length.
  unfold script_error, after_writes. intros H.
  destruct (setitem tree "uploaded_at" VNone); [simplify_eq; lia|].
  destruct (getitem tree "recommended_pricing_tiers") as [|pricing] eqn:Gp;
    [simplify_eq; lia|].
  destruct (getitem pricing "tier_structure") as [|tiers] eqn:Gt;
    [simplify_eq; lia|].
  destruct (items_of tiers) as [|items] eqn:Gi; [simplify_eq; lia|].
  assert (Et : tier_structure tree = items).
  { unfold tier_structure. rewrite (section_of_two _ _ _ _ _ Gp Gt).
    by apply items_of_inr in Gi as ->. }
  rewrite Et.
  destruct (first_bad_tier items) as [[j e1]|] eqn:Hbad.
  { pose proof (first_bad_tier_lt _ _ _ Hbad). simplify_eq. lia. }
  repeat match type of H with
    | match ?x with _ => _ end = _ => destruct x; [simplify_eq; lia|]
    end.
  done.
Qed.

(** A run over a tree that the script cannot get through: the writes
    asked for before the operation that raises, cut at the first write
    that raises. *)
Lemma run_script_error env tree store (n : nat) e :
  script_error tree = Some (n, e) →
  ∃ w',
    run env tree store
    = (inl (match first_fault env 0 n with
            | Some _ => WriteError
            | None => e
            end), w')
    ∧ writes w'
      = records env 0 (take (default n (first_fault env 0 n)) (plan tree))
    ∧ docs w'
      = store_after
          (records env 0 (take (default n (first_fault env 0 n)) (plan tree)))
          store
    ∧ stdout w'
      = map report (take (default n (first_fault env 0 n)) (plan tree)).
Proof.
  intros H. pose proof (script_error_bound _ _ _ H) as Hn.
  destruct (upload_until_script_error env _ _ _ H) as [b Hb].
  unfold run. rewrite Hb. unfold bind. rewrite for_each_perform.
  rewrite length_take, Nat.min_l by lia. cbn [attempts start].
  destruct (first_fault env 0 n) as [k|] eqn:F; cbn [default].
  - apply first_fault_Some in F as (Hk & _).
    rewrite take_take, Nat.min_l by lia.
    eexists. split; [reflexivity|]. cbn [interrupted writes docs stdout].
    by rewrite completed_writes, completed_docs, completed_stdout.
  - destruct b; eexists; (split; [reflexivity|]);
      cbn [writes docs stdout];
      by rewrite completed_writes, completed_docs, completed_stdout.
Qed.

(** ** Runs over shaped trees *)

Lemma well_formed_inv tree :
  well_formed tree = true →
  valid tree = true ∧ shaped tree = true
  ∧ section_of ["sources"] tree = VList (sources tree).
Proof.
  unfold well_formed. intros [[Hv Hs]%andb_prop Hl]%andb_prop.
  repeat split; [done..|].
  unfold has in Hl. unfold sources, section_of. simpl.
  destruct (field "sources" tree) as [[]|]; done.
Qed.

Section Runs.

Variables (env : Env) (tree : value) (store : gmap path value).
Hypothesis tree_shaped : shaped tree = true.

(** A run that returns has built the reference of every tier. *)
Lemma run_ok_addressable w' :
  run env tree store = (inr tt, w') → tiers_addressable tree = true.
Proof.
  intros E. destruct (script_error tree) as [[n e]|] eqn:He.
  - destruct (run_script_error env tree store n e He) as (w'' & E' & _).
    rewrite E in E'. discriminate E'.
  - by apply script_error_None in He as [_ ?].
Qed.

(** A successful run made every write of the plan. *)
Lemma run_ok_inv w' :
  run env tree store = (inr tt, w') →
  first_fault env 0 (List.length (tier_structure tree) + 6) = None
  ∧ w' = concluded (List.length (tier_structure tree))
              (completed env (plan tree) (start store)).
Proof.
  intros E. pose proof (run_ok_addressable w' E) as Ha. revert E.
  unfold run. rewrite (run_shaped env tree _ tree_shaped Ha), plan_length.
  simpl attempts.
  destruct (first_fault env 0 (List.length (tier_structure tree) + 6));
    [done|]. by intros [= <-].
Qed.

(** The run succeeds when every tier key makes a reference and no
    write raises. *)
Lemma run_ok :
  tiers_addressable tree = true →
  first_fault env 0 (List.length (tier_structure tree) + 6) = None →
  run env tree store
  = (inr tt, concluded (List.length (tier_structure tree))
              (completed env (plan tree) (start store))).
Proof.
  intros Ha H. unfold run.
  rewrite (run_shaped env tree _ tree_shaped Ha), plan_length.
  simpl attempts. by rewrite H.
Qed.

(** The run stops at the first write that raises. *)
Lemma run_interrupted k :
  tiers_addressable tree = true →
  first_fault env 0 (List.length (tier_structure tree) + 6) = Some k →
  run env tree store
  = (inl WriteError,
     interrupted (completed env (take k (plan tree)) (start store))).
Proof.
  intros Ha H. unfold run.
  rewrite (run_shaped env tree _ tree_shaped Ha), plan_length.
  simpl attempts. by rewrite H.
Qed.

Lemma run_ok_writes w' :
  run env tree store = (inr tt, w') →
  writes w' = expected_writes env tree.
Proof.
  intros [_ ->]%run_ok_inv. simpl. by rewrite completed_writes.
Qed.

Lemma run_ok_docs w' :
  run env tree store = (inr tt, w') →
  docs w' = store_after (expected_writes env tree) store.
Proof.
  intros [_ ->]%run_ok_inv. simpl. by rewrite completed_docs.
Qed.

(** Whatever the outcome, the writes made are the first ones of the
    plan. *)
Lemma run_writes_prefix :
  ∃ k : nat, (k ≤ List.length (tier_structure tree) + 6)%nat
       ∧ writes (snd (run env tree store)) = take k (expected_writes env tree)
       ∧ (fst (run env tree store) = inr tt →
          k = List.length (tier_structure tree) + 6).
Proof.
  destruct (script_error tree) as [[n e]|] eqn:He.
  { destruct (run_script_error env tree store n e He)
      as (w' & -> & Hw & _).
    apply script_error_bound in He. rewrite plan_length in He.
    exists (default n (first_fault env 0 n)). split_and!.
    - destruct (first_fault env 0 n) as [k|] eqn:F; [|simpl; lia].
      apply first_fault_Some in F as (Hk & _). simpl. lia.
    - cbn [snd]. by rewrite Hw, records_take.
    - done. }
  apply script_error_None in He as [_ Ha].
  destruct (first_fault env 0 (List.length (tier_structure tree) + 6))
    as [k|] eqn:F.
  - rewrite (run_interrupted _ Ha F). exists k.
    apply first_fault_Some in F as (Hk & _). simpl.
    rewrite completed_writes, records_take. simpl. split; [lia|done].
  - rewrite (run_ok Ha F). exists (List.length (tier_structure tree) + 6). simpl.
    rewrite completed_writes. simpl. split; [done|]. split; [|done].
    rewrite firstn_all2; [done|].
    unfold expected_writes. rewrite records_length, plan_length. done.
Qed.

(** Write number [i] of a run is step number [i] of the plan, stamped
    with clock reading number [i]. *)
Lemma run_write_inv i p v :
  writes (snd (run env tree store)) !! i = Some (p, v) →
  ∃ s, plan tree !! i = Some s
       ∧ p = target s ∧ v = record_at s (utcnow_at env i).
Proof.
  destruct run_writes_prefix as (k & _ & -> & _). intros H.
  apply lookup_take_Some in H as [H _].
  destruct (plan tree !! i) as [s|] eqn:Hs.
  - exists s. unfold expected_writes in H.
    rewrite (records_lookup env 0 _ _ _ Hs) in H. by simplify_eq/=.
  - apply lookup_ge_None in Hs. apply lookup_lt_Some in H.
    unfold expected_writes in H. rewrite records_length in H. lia.
Qed.

End Runs.

(** ** The documents of a successful run *)

Lemma run_ok_world env tree store :
  shaped tree = true →
  fst (run env tree store) = inr tt →
  snd (run env tree store)
  = concluded (List.length (tier_structure tree))
              (completed env (plan tree) (start store)).
Proof.
  intros Hs Hok. destruct (run env tree store) as [r w'] eqn:E.
  simpl in *. subst r. by apply (run_ok_inv env tree store Hs) in E as [_ ->].
Qed.

Lemma expected_targets env tree :
  map fst (expected_writes env tree)
  = write_order (map fst (tier_structure tree)).
Proof. unfold expected_writes. by rewrite records_targets, plan_targets. Qed.

Lemma expected_length env tree :
  List.length (expected_writes env tree)
  = List.length (tier_structure tree) + 6.
Proof. unfold expected_writes. by rewrite records_length, plan_length. Qed.

(** C1. For every well-formed input tree whose [tier_structure] has [T]
    keys, a successful run calls [set] exactly [T + 6] times, and the
    [T + 6] writes go, each to a target of its own, to the main
    research document, the [T] tier documents, the competitors
    document, the B2B API pricing document, the white-label document,
    the key-insights document and the index document. *)
Theorem writes_each_target_once env tree store :
  well_formed tree = true →
  fst (run env tree store) = inr tt →
  attempts (snd (run env tree store)) = List.length (tier_structure tree) + 6
  ∧ List.length (writes (snd (run env tree store)))
    = List.length (tier_structure tree) + 6
  ∧ map fst (writes (snd (run env tree store)))
    = [doc_ref] ++ map tier_ref (Dict.keys (tier_structure tree))
      ++ [comp_ref; b2b_ref; wl_ref; insights_ref; index_ref]
  ∧ NoDup (map fst (writes (snd (run env tree store)))).
Proof.
  unfold Dict.keys. intros (Hv & Hs & _)%well_formed_inv Hok.
  rewrite (run_ok_world env tree store Hs Hok).
  unfold concluded; cbn [attempts writes].
  rewrite completed_attempts, completed_writes.
  unfold start; cbn [attempts writes reads app].
  fold (expected_writes env tree).
  rewrite expected_length, expected_targets, plan_length.
  repeat split.
  by apply write_order_NoDup, tier_names_distinct.
Qed.

Lemma writes_each_target_once_witness :
  attempts (snd (run (steady 1000) example_tree ∅)) = 2 + 6
  ∧ List.length (writes (snd (run (steady 1000) example_tree ∅))) = 2 + 6
  ∧ map fst (writes (snd (run (steady 1000) example_tree ∅)))
    = [doc_ref] ++ map tier_ref ["free"; "pro"]
      ++ [comp_ref; b2b_ref; wl_ref; insights_ref; index_ref]
  ∧ NoDup (map fst (writes (snd (run (steady 1000) example_tree ∅)))).
Proof.
  apply (writes_each_target_once (steady 1000) example_tree ∅);
    vm_compute; reflexivity.
Defined.

(** ** A tree without [tier_structure] *)

Lemma run_absent_tiers env tree store :
  tier_structure_absent tree = true →
  set_raises env 0 = false →
  run env tree store =
  (inl (KeyError (absent_key tree)),
   {| reads := 1; attempts := 1;
      docs := <[doc_ref := VDict (stamp (utcnow_at env 0) (attrs_of tree))]> store;
      writes := [(doc_ref, VDict (stamp (utcnow_at env 0) (attrs_of tree)))];
      stdout := ["✓ Uploaded main research document to Firestore"] |}).
Proof.
  unfold tier_structure_absent, absent_key, run, upload_pricing_research.
  destruct tree as [| | | | | |d|]; try done. cbn [is_dict andb field attrs_of].
  intros Habs Hset.
  pure_steps. rewrite bind_utcnow; cbv beta. pure_steps.
  rewrite bind_doc_set. unfold start; cbn [reads attempts docs writes stdout app].
  rewrite Hset, bind_print; cbv beta; cbn [reads attempts docs writes stdout app].
  rewrite getitem_stamped by done. unfold getitem at 1. fold (stamp (utcnow_at env 0) d).
  destruct (Dict.get "recommended_pricing_tiers" d) as [pricing|]; [|done].
  destruct pricing as [| | | | | |p|]; try done. cbn [is_dict andb field] in Habs.
  pure_steps. unfold getitem.
  destruct (Dict.get "tier_structure" p); done.
Qed.

(** C2, as the script behaves.  When [tier_structure] is absent, the
    run writes the main research document first and then, that write
    having gone through, aborts with a missing-key error: the main
    document is the one document written, and no later write is
    attempted. *)
Theorem absent_tiers_abort_after_main_write env tree store :
  tier_structure_absent tree = true →
  set_raises env 0 = false →
  fst (run env tree store) = inl (KeyError (absent_key tree))
  ∧ writes (snd (run env tree store))
    = [(doc_ref, VDict (stamp (utcnow_at env 0) (attrs_of tree)))]
  ∧ attempts (snd (run env tree store)) = 1
  ∧ docs (snd (run env tree store))
    = <[doc_ref := VDict (stamp (utcnow_at env 0) (attrs_of tree))]> store.
Proof.
  intros Habs Hset. by rewrite (run_absent_tiers env tree store Habs Hset).
Qed.

Lemma absent_tiers_abort_after_main_write_witness :
  fst (run (steady 1000) tree_without_tiers ∅)
  = inl (KeyError "tier_structure")
  ∧ writes (snd (run (steady 1000) tree_without_tiers ∅))
    = [(doc_ref, VDict (stamp 1000 (attrs_of tree_without_tiers)))]
  ∧ attempts (snd (run (steady 1000) tree_without_tiers ∅)) = 1
  ∧ docs (snd (run (steady 1000) tree_without_tiers ∅))
    = <[doc_ref := VDict (stamp 1000 (attrs_of tree_without_tiers))]> ∅.
Proof.
  apply (absent_tiers_abort_after_main_write (steady 1000) tree_without_tiers ∅);
    reflexivity.
Defined.

(** C2, as stated, fails: over a tree without [tier_structure], and a
    store that takes every write, the run does end in a missing-key
    error, but the main research document has been written by then. *)
Lemma main_written_before_tier_lookup :
  tier_structure_absent tree_without_tiers = true
  ∧ fst (run (steady 1000) tree_without_tiers ∅)
    = inl (KeyError "tier_structure")
  ∧ map fst (writes (snd (run (steady 1000) tree_without_tiers ∅)))
    = [doc_ref]
  ∧ is_Some (docs (snd (run (steady 1000) tree_without_tiers ∅)) !! doc_ref).
Proof. vm_compute. repeat split. by eexists. Qed.

(** ** The steps of the plan *)

Lemma plan_tier tree j item :
  tier_structure tree !! j = Some item →
  plan tree !! S j = Some (tier_step item).
Proof.
  intros H. unfold plan. simpl.
  apply lookup_app_l_Some. by rewrite list_lookup_fmap, H.
Qed.

Lemma plan_front tree :
  plan tree =
  (main_step tree :: map tier_step (tier_structure tree)
   ++ [competitors_step tree; b2b_step tree; white_label_step tree;
       insights_step tree])
  ++ [index_step tree].
Proof. unfold plan. simpl. by rewrite <- app_assoc. Qed.

(** A step of the plan is the main step, the step of a tier, or one of
    the five that follow the tiers. *)
Lemma plan_step_cases tree i s :
  plan tree !! i = Some s →
  (i = 0 ∧ s = main_step tree)
  ∨ (∃ j item, i = S j ∧ tier_structure tree !! j = Some item
               ∧ s = tier_step item)
  ∨ s = competitors_step tree
  ∨ s = b2b_step tree
  ∨ s = white_label_step tree
  ∨ s = insights_step tree
  ∨ s = index_step tree.
Proof.
  unfold plan. destruct i as [|i]; simpl.
  { intros [= <-]. by left. }
  intros [H|[_ H]]%lookup_app_Some.
  - rewrite list_lookup_fmap in H.
    apply fmap_Some in H as (item & H & ->).
    right; left. by exists i, item.
  - revert H. generalize (i - List.length (map tier_step (tier_structure tree))).
    intros [|[|[|[|[|n]]]]]; simpl; intros [= <-]; tauto.
Qed.

(** The records of the sections carry the clock reading taken for them
    under [updated_at], whatever the section holds. *)
Lemma section_record_updated_at attrs now :
  field "updated_at" (section_record attrs now) = Some (VDatetime now).
Proof. apply DictFacts.get_set_eq. Qed.

Lemma tier_record_updated_at name attrs now :
  field "updated_at" (tier_record name attrs now) = Some (VDatetime now).
Proof. apply DictFacts.get_set_eq. Qed.

(** A tier's record carries the tier's key under [tier_id], whatever
    the tier's attributes hold. *)
Lemma tier_record_tier_id name attrs now :
  field "tier_id" (tier_record name attrs now) = Some (VStr name).
Proof.
  unfold tier_record, field.
  rewrite DictFacts.get_set_ne by done. apply DictFacts.get_set_eq.
Qed.

Lemma step_updated_at tree i s now :
  plan tree !! i = Some s →
  target s ≠ doc_ref → target s ≠ index_ref →
  field "updated_at" (record_at s now) = Some (VDatetime now).
Proof.
  intros H Hm Hi.
  destruct (plan_step_cases tree i s H)
    as [[_ ->]|[(j & item & _ & _ & ->)|[->|[->|[->|[->| ->]]]]]]; try done.
  - apply tier_record_updated_at.
  - apply section_record_updated_at.
  - apply section_record_updated_at.
  - apply section_record_updated_at.
Qed.

Lemma main_record_fields tree now :
  field "uploaded_at" (record_at (main_step tree) now) = Some (VDatetime now)
  ∧ field "uploaded_by" (record_at (main_step tree) now)
    = Some (VStr "claude-sonnet-4-5")
  ∧ field "version" (record_at (main_step tree) now) = Some (VStr "v1.0")
  ∧ field "status" (record_at (main_step tree) now) = Some (VStr "active").
Proof.
  unfold main_step, stamp, field; simpl.
  repeat split;
    repeat first [apply DictFacts.get_set_eq
                 |rewrite DictFacts.get_set_ne by done].
Qed.

(** The stamped tree has the sections of the tree as it was loaded. *)
Lemma field_stamp now d k :
  k ≠ "uploaded_at" → k ≠ "uploaded_by" → k ≠ "version" → k ≠ "status" →
  field k (VDict (stamp now d)) = field k (VDict d).
Proof. intros. unfold field, stamp. by rewrite !DictFacts.get_set_ne. Qed.

Lemma run_ok_write env tree store i s :
  shaped tree = true →
  fst (run env tree store) = inr tt →
  plan tree !! i = Some s →
  writes (snd (run env tree store)) !! i
  = Some (target s, record_at s (utcnow_at env i)).
Proof.
  intros Hs Hok Hi. rewrite (run_ok_world env tree store Hs Hok).
  unfold concluded; cbn [writes]. rewrite completed_writes.
  unfold start; cbn [writes reads app].
  by rewrite (records_lookup env 0 _ _ _ Hi).
Qed.

Lemma run_ok_index env tree store :
  shaped tree = true →
  fst (run env tree store) = inr tt →
  docs (snd (run env tree store)) !! index_ref
  = Some (record_at (index_step tree)
            (utcnow_at env (List.length (tier_structure tree) + 5))).
Proof.
  intros Hs Hok. rewrite (run_ok_world env tree store Hs Hok).
  unfold concluded; cbn [docs]. rewrite completed_docs.
  unfold start; cbn [docs reads].
  rewrite plan_front, records_app. simpl records at 2.
  rewrite store_after_snoc, lookup_insert_eq. do 3 f_equal.
  simpl. rewrite length_app, length_map. simpl. lia.
Qed.

(** ** Claims about the records *)

(** C5. For every well-formed input tree, the index document of a
    successful run has, under [total_sources], the length of the
    [sources] array of the tree as it was loaded; the stamping of the
    tree before the main write leaves that array as it was. *)
Theorem total_sources_counts_input_sources env tree store :
  well_formed tree = true →
  fst (run env tree store) = inr tt →
  docs (snd (run env tree store)) !! index_ref ≫= field "total_sources"
  = Some (VInt (Z.of_nat (List.length (sources tree))))
  ∧ ∀ now, sources (VDict (stamp now (attrs_of tree))) = sources tree.
Proof.
  intros (Hv & Hs & Hsrc)%well_formed_inv Hok. split.
  - rewrite (run_ok_index env tree store Hs Hok).
    unfold index_step, size_of. by rewrite Hsrc.
  - intros now. apply shaped_inv in Hs as (d & ? & ? & ? & ? & ? & ? & ? & ? & -> & _).
    unfold sources, section_of. cbn [fold_left attrs_of].
    by rewrite field_stamp.
Qed.

Lemma total_sources_counts_input_sources_witness :
  docs (snd (run (steady 1000) example_tree ∅)) !! index_ref
    ≫= field "total_sources"
  = Some (VInt 2)
  ∧ ∀ now, sources (VDict (stamp now (attrs_of example_tree)))
           = sources example_tree.
Proof.
  apply (total_sources_counts_input_sources (steady 1000) example_tree ∅);
    reflexivity.
Defined.

(** ** Every run, whatever the tree *)

Section Orderly.

Variable env : Env.

Lemma orderly_ret {A} (a : A) (post : A → Prop) :
  post a → orderly env (ret a) [] post.
Proof.
  intros Ha w. exists []. simpl. rewrite app_nil_r, !Nat.add_0_r.
  split_and!; try done. intros j Hj. lia.
Qed.

Lemma orderly_lift {A} (r : exn + A) :
  r ≠ inl WriteError → orderly env (lift r) [] (fun a => r = inr a).
Proof.
  intros Hr w. exists []. simpl. rewrite app_nil_r, Nat.add_0_r.
  split_and!; try done.
  - destruct r as [[]|]; simpl; try lia. done.
  - intros j Hj. lia.
  - destruct r as [e|a]; [|done]. split; [done|]. by intros ->.
Qed.

Lemma orderly_utcnow : orderly env (utcnow env) [] (fun _ => True).
Proof.
  intros w. exists []. simpl. rewrite app_nil_r, !Nat.add_0_r.
  split_and!; try done. intros j Hj. lia.
Qed.

Lemma orderly_print line : orderly env (print line) [] (fun _ => True).
Proof.
  intros w. exists []. simpl. rewrite app_nil_r, !Nat.add_0_r.
  split_and!; try done. intros j Hj. lia.
Qed.

Lemma orderly_doc_set p v : orderly env (doc_set env p v) [p] (fun _ => True).
Proof.
  intros w. unfold doc_set.
  destruct (set_raises env (attempts w)) eqn:E.
  - exists []. simpl. rewrite app_nil_r, !Nat.add_0_r.
    split_and!; try done; [lia|intros j Hj; lia|apply prefix_nil].
  - exists [(p, v)]. simpl.
    split_and!; try done; [lia|].
    intros [|j] Hj; [by rewrite Nat.add_0_r|lia].
Qed.

Lemma orderly_post {A} (c : M A) targets (post post' : A → Prop) :
  orderly env c targets post → (∀ a, post a → post' a) →
  orderly env c targets post'.
Proof.
  intros Hc Hpost w. destruct (Hc w) as (new & Hw & Hd & Ha & Hf & Hr).
  exists new. split_and!; try done.
  destruct (c w).1; [done|]. destruct Hr. split; [done|by apply Hpost].
Qed.

Lemma orderly_bind {A B} (c : M A) (k : A → M B) targets targets'
    (mid : A → Prop) (post : B → Prop) :
  orderly env c targets mid →
  (∀ a, mid a → orderly env (k a) targets' post) →
  orderly env (bind c k) (targets ++ targets') post.
Proof.
  intros Hc Hk w. destruct (Hc w) as (new & Hw & Hd & Ha & Hf & Hr).
  unfold bind. destruct (c w) as [[e|a] w1]; simpl in *.
  - destruct Hr as [Hp He]. exists new. split_and!; try done.
    by apply prefix_app_r.
  - destruct Hr as [Hp Hmid].
    destruct (Hk a Hmid w1) as (new' & Hw' & Hd' & Ha' & Hf' & Hr').
    exists (new ++ new'). rewrite length_app. split_and!.
    + by rewrite Hw', Hw, app_assoc.
    + rewrite Hd', Hd. unfold store_after. by rewrite fold_left_app.
    + rewrite Ha', Ha. lia.
    + intros j Hj. destruct (decide (j < List.length new)) as [Hlt|Hge].
      * by apply Hf.
      * replace (attempts w + j)
          with (attempts w1 + (j - List.length new)) by lia.
        apply Hf'. lia.
    + rewrite map_app, Hp.
      replace (attempts w + (List.length new + List.length new'))
        with (attempts w1 + List.length new') by lia.
      destruct (k a w1).1; [|by destruct Hr' as [-> ?]].
      destruct Hr' as [Hp' He']. split; [by apply prefix_app|done].
Qed.

(** A command that writes nothing, then the rest. *)
Lemma orderly_then {A B} (c : M A) (k : A → M B) targets
    (mid : A → Prop) (post : B → Prop) :
  orderly env c [] mid →
  (∀ a, mid a → orderly env (k a) targets post) →
  orderly env (bind c k) targets post.
Proof. apply (orderly_bind c k [] targets). Qed.

(** A lookup, then the rest when the lookup has succeeded. *)
Lemma orderly_lift_then {A B} (r : exn + A) (k : A → M B) targets
    (post : B → Prop) :
  r ≠ inl WriteError →
  (∀ a, r = inr a → orderly env (k a) targets post) →
  orderly env (bind (lift r) k) targets post.
Proof.
  intros Hr Hk.
  apply (orderly_then (lift r) k targets (fun a => r = inr a));
    [by apply orderly_lift|exact Hk].
Qed.

(** A write, then the rest. *)
Lemma orderly_write_then {B} p v (k : unit → M B) targets
    (post : B → Prop) :
  orderly env (k tt) targets post →
  orderly env (bind (doc_set env p v) k) (p :: targets) post.
Proof.
  intros Hk. apply (orderly_bind _ _ [p] targets (fun _ => True)).
  - apply orderly_doc_set.
  - by intros [] _.
Qed.

Lemma orderly_for_each {A} (xs : list A) (body : A → M unit)
    (tgt : A → path) (P : A → Prop) :
  (∀ x, orderly env (body x) [tgt x] (fun _ => P x)) →
  orderly env (for_each xs body) (map tgt xs) (fun _ => Forall P xs).
Proof.
  intros Hbody. induction xs as [|x xs IH]; simpl.
  - by apply orderly_ret.
  - apply (orderly_bind _ _ [tgt x] (map tgt xs) (fun _ => P x));
      [apply Hbody|].
    intros _ Hx. apply (orderly_post _ _ _ _ IH). intros _ Hxs.
    by constructor.
Qed.

End Orderly.

(** The lookups of the script raise their own errors only. *)
Lemma getitem_no_write_error obj k : getitem obj k ≠ inl WriteError.
Proof. destruct obj; simpl; try done. by destruct (Dict.get k items). Qed.

Lemma setitem_no_write_error obj k v : setitem obj k v ≠ inl WriteError.
Proof. by destruct obj. Qed.

Lemma spread_no_write_error obj : spread obj ≠ inl WriteError.
Proof. by destruct obj. Qed.

Lemma items_of_no_write_error obj : items_of obj ≠ inl WriteError.
Proof. by destruct obj. Qed.

Lemma len_no_write_error obj : len obj ≠ inl WriteError.
Proof. by destruct obj. Qed.

Lemma document_reference_no_write_error p :
  document_reference p ≠ inl WriteError.
Proof.
  unfold document_reference, verify_path. destruct p; [done|].
  by destruct (Bool.eqb _ _).
Qed.

Create HintDb lookups.

#[local] Hint Resolve getitem_no_write_error setitem_no_write_error
  spread_no_write_error items_of_no_write_error len_no_write_error
  document_reference_no_write_error : lookups.

Ltac o_utcnow := eapply orderly_then; [apply orderly_utcnow|]; intros ? _.
Ltac o_print := eapply orderly_then; [apply orderly_print|]; intros _ _.
Ltac o_lift x H :=
  apply orderly_lift_then; [solve [auto with lookups]|]; intros x H.
Ltac o_write := apply orderly_write_then.
Ltac o_reference :=
  let ref := fresh "ref" in
  let H := fresh "Href" in
  o_lift ref H; apply document_reference_inr in H as ->.

Section Script.

Variable env : Env.

Lemma upload_tier_orderly item :
  orderly env (upload_tier env item) [tier_ref item.1]
    (fun _ => is_dict item.2 = true).
Proof.
  destruct item as [tier_name tier_data]. unfold upload_tier.
  o_reference.
  o_lift attrs Hattrs. apply spread_inr in Hattrs as ->.
  o_utcnow. o_write.
  apply (orderly_post _ _ _ _ _ (orderly_print env _)). done.
Qed.

(** Every run, over any tree: the writes go to an initial segment of
    the targets in the order of the script, all of them when the run
    succeeds, and a run succeeds on trees of the right shape only. *)
Lemma upload_orderly tree :
  orderly env (upload_pricing_research env tree)
    (write_order (map fst (tier_structure tree)))
    (fun _ => shaped tree = true).
Proof.
  unfold upload_pricing_research, write_order.
  o_utcnow. o_lift rd H.
  destruct tree as [| | | | | |d|]; try discriminate H.
  injection H as <-.
  o_lift rd H; injection H as <-. o_lift rd H; injection H as <-.
  o_lift rd H; injection H as <-.
  o_reference. o_write. o_print.
  (* the tiers *)
  o_lift pricing Hp. rewrite getitem_stamped in Hp by done.
  o_lift tiers Ht. o_lift items Hitems. apply items_of_inr in Hitems as ->.
  apply getitem_inr in Hp as (? & [= <-] & Hp).
  apply getitem_inr in Ht as (p & -> & Ht).
  assert (tier_structure (VDict d) = items) as ->.
  { unfold tier_structure, section_of. simpl. rewrite Hp. simpl.
    by rewrite Ht. }
  apply (orderly_bind _ _ _ _ _ (fun _ => Forall (fun item => is_dict item.2 = true) items)).
  { rewrite map_map. apply orderly_for_each. apply upload_tier_orderly. }
  intros _ Hdicts.
  (* the competitors *)
  o_lift comp Hc. rewrite getitem_stamped in Hc by done.
  apply getitem_inr in Hc as (? & [= <-] & Hc).
  o_reference. o_utcnow. o_write. o_print.
  (* the B2B section *)
  o_lift pricing H. rewrite getitem_stamped in H by done.
  apply getitem_inr in H as (? & [= <-] & H).
  rewrite Hp in H. injection H as <-.
  o_lift b2b Hb. apply getitem_inr in Hb as (? & [= <-] & Hb).
  o_reference. o_lift attrs Hattrs. apply spread_inr in Hattrs as ->.
  o_utcnow. o_write. o_print.
  (* the white-label section *)
  o_lift pricing H. rewrite getitem_stamped in H by done.
  apply getitem_inr in H as (? & [= <-] & H).
  rewrite Hp in H. injection H as <-.
  o_lift wl Hw. apply getitem_inr in Hw as (? & [= <-] & Hw).
  o_reference. o_lift attrs' Hattrs. apply spread_inr in Hattrs as ->.
  o_utcnow. o_write. o_print.
  (* the insights *)
  o_lift ins Hi. rewrite getitem_stamped in Hi by done.
  apply getitem_inr in Hi as (? & [= <-] & Hi).
  o_reference. o_lift attrs'' Hattrs. apply spread_inr in Hattrs as ->.
  o_utcnow. o_write. o_print.
  (* the index *)
  o_reference. o_utcnow.
  o_lift srcs Hs. rewrite getitem_stamped in Hs by done.
  apply getitem_inr in Hs as (? & [= <-] & Hs).
  o_lift n Hn.
  o_write. o_print.
  (* the summary *)
  o_print. o_print. o_lift m Htiers. o_print. o_print.
  apply (orderly_post _ _ _ _ _ (orderly_print env _)). intros _ _.
  unfold shaped, has, field, sized. rewrite Hp, Hc, Hi, Hs, Ht, Hb, Hw, Hn.
  simpl. rewrite !andb_true_r. apply forallb_forall.
  intros item Hitem%list_elem_of_In.
  by apply (proj1 (Forall_forall _ _) Hdicts).
Qed.

End Script.

(** ** Every run from the start *)

Lemma run_orderly env tree store :
  docs (run env tree store).2 = store_after (writes (run env tree store).2) store
  ∧ attempts (run env tree store).2
    = List.length (writes (run env tree store).2)
      + (if is_write_error (run env tree store).1 then 1 else 0)
  ∧ (∀ j, j < List.length (writes (run env tree store).2) →
          set_raises env j = false)
  ∧ match (run env tree store).1 with
    | inr _ =>
        map fst (writes (run env tree store).2)
        = write_order (map fst (tier_structure tree))
        ∧ shaped tree = true
    | inl e =>
        map fst (writes (run env tree store).2)
          `prefix_of` write_order (map fst (tier_structure tree))
        ∧ (e = WriteError →
           set_raises env (List.length (writes (run env tree store).2)) = true)
    end.
Proof.
  destruct (upload_orderly env tree (start store))
    as (new & Hw & Hd & Ha & Hf & Hr).
  unfold run. simpl in Hw, Hd, Ha, Hf, Hr. by rewrite Hw.
Qed.

(** A run succeeds on trees of the right shape only. *)
Lemma run_ok_shaped env tree store :
  fst (run env tree store) = inr tt → shaped tree = true.
Proof.
  intros Hok. destruct (run_orderly env tree store) as (_ & _ & _ & Hr).
  rewrite Hok in Hr. tauto.
Qed.

Lemma run_targets_prefix env tree store :
  map fst (writes (run env tree store).2)
    `prefix_of` write_order (map fst (tier_structure tree)).
Proof.
  destruct (run_orderly env tree store) as (_ & _ & _ & Hr).
  destruct (run env tree store).1; [tauto|]. by destruct Hr as [-> _].
Qed.

Lemma run_targets_NoDup env tree store :
  valid tree = true → NoDup (map fst (writes (run env tree store).2)).
Proof.
  intros Hv. destruct (run_targets_prefix env tree store) as [rest Hrest].
  pose proof (write_order_NoDup _ (tier_names_distinct tree Hv)) as Hnd.
  rewrite Hrest in Hnd. by apply NoDup_app in Hnd as [? _].
Qed.

(** C4. On every run, the writes go out in the order of the script:
    the main research document first, then one document per tier, then
    competitors, B2B API pricing, white-label, key insights, and the
    index document last.  A run that ends early has written to an
    initial segment of that sequence.  Every call of [set] but the one
    that ended the run, if one did, has gone through, and the store
    holds what the writes, applied one after the other, leave.  Over a
    tree of the shape the script needs whose tier keys make document
    references, the run does issue the writes of the sequence, one
    after the other, until a call of [set] raises: all [T + 6] of them
    when none raises, and then it returns; exactly the first [k] when
    call number [k] is the first to raise, and then it ends with the
    write error. *)
Theorem writes_follow_write_order env tree store :
  map fst (writes (run env tree store).2)
    `prefix_of` [doc_ref] ++ map tier_ref (Dict.keys (tier_structure tree))
                ++ [comp_ref; b2b_ref; wl_ref; insights_ref; index_ref]
  ∧ (fst (run env tree store) = inr tt →
     map fst (writes (run env tree store).2)
     = [doc_ref] ++ map tier_ref (Dict.keys (tier_structure tree))
       ++ [comp_ref; b2b_ref; wl_ref; insights_ref; index_ref])
  ∧ attempts (run env tree store).2
    = List.length (writes (run env tree store).2)
      + (if is_write_error (run env tree store).1 then 1 else 0)
  ∧ docs (run env tree store).2
    = store_after (writes (run env tree store).2) store
  ∧ (shaped tree = true → tiers_addressable tree = true →
     map fst (writes (run env tree store).2)
     = take (default (List.length (tier_structure tree) + 6)
               (first_fault env 0 (List.length (tier_structure tree) + 6)))
            ([doc_ref] ++ map tier_ref (Dict.keys (tier_structure tree))
             ++ [comp_ref; b2b_ref; wl_ref; insights_ref; index_ref])
     ∧ fst (run env tree store)
       = match first_fault env 0 (List.length (tier_structure tree) + 6)
         with
         | None => inr tt
         | Some _ => inl WriteError
         end).
Proof.
  unfold Dict.keys.
  destruct (run_orderly env tree store) as (Hd & Ha & _ & Hr).
  split_and!; try done.
  - apply run_targets_prefix.
  - intros Hok. simpl in Hok. rewrite Hok in Hr. by destruct Hr.
  - intros Hs Hnames.
    change ([doc_ref] ++ map tier_ref (map fst (tier_structure tree))
            ++ [comp_ref; b2b_ref; wl_ref; insights_ref; index_ref])
      with (write_order (map fst (tier_structure tree))).
    destruct (first_fault env 0 (List.length (tier_structure tree) + 6))
      as [k|] eqn:F.
    + rewrite (run_interrupted env tree store Hs k Hnames F).
      cbn [fst snd interrupted writes default from_option id].
      rewrite completed_writes. cbn [start writes reads app].
      by rewrite records_targets, <- firstn_map, plan_targets.
    + rewrite (run_ok env tree store Hs Hnames F).
      cbn [fst snd concluded writes default from_option id].
      rewrite completed_writes. cbn [start writes reads app].
      rewrite records_targets, plan_targets. split; [|done].
      rewrite firstn_all2; [done|].
      by rewrite <- plan_targets, length_map, plan_length.
Qed.

Lemma writes_follow_write_order_witness :
  map fst (writes (run (failing_at 3 1000) example_tree ∅).2)
  = [doc_ref; tier_ref "free"; tier_ref "pro"]
  ∧ fst (run (failing_at 3 1000) example_tree ∅) = inl WriteError.
Proof.
  destruct (writes_follow_write_order (failing_at 3 1000) example_tree ∅)
    as (_ & _ & _ & _ & H).
  apply H; reflexivity.
Defined.

Lemma is_write_error_true {A} (r : exn + A) :
  is_write_error r = true → r = inl WriteError.
Proof. by destruct r as [[]|]. Qed.

(** C7. When a call of [set] raises, the run ends there with that
    error: the call is the last call of [set] of the run, every
    document written before it is in the store as it was written, and
    the rest of the store is as it was before the run. *)
Theorem failed_write_stops_the_run env tree store j :
  valid tree = true →
  j < attempts (run env tree store).2 →
  set_raises env j = true →
  fst (run env tree store) = inl WriteError
  ∧ attempts (run env tree store).2 = S j
  ∧ List.length (writes (run env tree store).2) = j
  ∧ docs (run env tree store).2
    = store_after (writes (run env tree store).2) store
  ∧ (∀ p v, (p, v) ∈ writes (run env tree store).2 →
            docs (run env tree store).2 !! p = Some v)
  ∧ (∀ p, p ∉ map fst (writes (run env tree store).2) →
          docs (run env tree store).2 !! p = store !! p).
Proof.
  intros Hv Hj Hraise.
  destruct (run_orderly env tree store) as (Hd & Ha & Hf & _).
  assert (List.length (writes (run env tree store).2) = j
          ∧ is_write_error (run env tree store).1 = true) as [Hlen Herr].
  { destruct (decide (j < List.length (writes (run env tree store).2)))
      as [Hlt|Hge].
    - rewrite (Hf j Hlt) in Hraise. done.
    - destruct (is_write_error (run env tree store).1); [|lia].
      split; [lia|done]. }
  rewrite Herr in Ha. split_and!; try done.
  - by apply is_write_error_true.
  - lia.
  - intros p v Hin. rewrite Hd.
    by apply store_after_lookup; [apply run_targets_NoDup|].
  - intros p Hp. rewrite Hd. by apply store_after_other.
Qed.

Lemma failed_write_stops_the_run_witness :
  fst (run (failing_at 2 1000) example_tree ∅) = inl WriteError
  ∧ attempts (run (failing_at 2 1000) example_tree ∅).2 = 3
  ∧ List.length (writes (run (failing_at 2 1000) example_tree ∅).2) = 2
  ∧ docs (run (failing_at 2 1000) example_tree ∅).2
    = store_after (writes (run (failing_at 2 1000) example_tree ∅).2) ∅
  ∧ (∀ p v, (p, v) ∈ writes (run (failing_at 2 1000) example_tree ∅).2 →
            docs (run (failing_at 2 1000) example_tree ∅).2 !! p = Some v)
  ∧ (∀ p, p ∉ map fst (writes (run (failing_at 2 1000) example_tree ∅).2) →
          docs (run (failing_at 2 1000) example_tree ∅).2 !! p
          = (∅ : gmap path value) !! p).
Proof.
  apply (failed_write_stops_the_run (failing_at 2 1000) example_tree ∅ 2);
    [reflexivity|vm_compute; lia|reflexivity].
Defined.

(** C3, as the script behaves.  On every successful run, every record
    written, the main research record and the index record apart, has
    under [updated_at] the clock reading taken for it, and the main
    research record has the fields [uploaded_at] (a clock reading),
    [uploaded_by], [version] and [status]. *)
Theorem records_carry_their_timestamps env tree store :
  fst (run env tree store) = inr tt →
  (∀ i p v,
     writes (snd (run env tree store)) !! i = Some (p, v) →
     p ≠ doc_ref → p ≠ index_ref →
     field "updated_at" v = Some (VDatetime (utcnow_at env i)))
  ∧ ∃ main,
      writes (snd (run env tree store)) !! 0 = Some (doc_ref, main)
      ∧ field "uploaded_at" main = Some (VDatetime (utcnow_at env 0))
      ∧ field "uploaded_by" main = Some (VStr "claude-sonnet-4-5")
      ∧ field "version" main = Some (VStr "v1.0")
      ∧ field "status" main = Some (VStr "active").
Proof.
  intros Hok. assert (Hs := run_ok_shaped env tree store Hok). split.
  - intros i p v Hw Hm Hi.
    destruct (run_write_inv env tree store Hs i p v Hw) as (s & Hp & -> & ->).
    by apply (step_updated_at tree i).
  - exists (record_at (main_step tree) (utcnow_at env 0)). split.
    + by apply (run_ok_write env tree store 0 (main_step tree)).
    + apply main_record_fields.
Qed.

Lemma records_carry_their_timestamps_witness :
  (∀ i p v,
     writes (snd (run (steady 1000) example_tree ∅)) !! i = Some (p, v) →
     p ≠ doc_ref → p ≠ index_ref →
     field "updated_at" v = Some (VDatetime (utcnow_at (steady 1000) i)))
  ∧ ∃ main,
      writes (snd (run (steady 1000) example_tree ∅)) !! 0
      = Some (doc_ref, main)
      ∧ field "uploaded_at" main
        = Some (VDatetime (utcnow_at (steady 1000) 0))
      ∧ field "uploaded_by" main = Some (VStr "claude-sonnet-4-5")
      ∧ field "version" main = Some (VStr "v1.0")
      ∧ field "status" main = Some (VStr "active").
Proof.
  apply (records_carry_their_timestamps (steady 1000) example_tree ∅);
    reflexivity.
Defined.

(** C3, as stated, fails: the main research record is not the index
    record, and on the successful run over the sample tree it has no
    [updated_at] field. *)
Lemma main_record_has_no_updated_at :
  well_formed example_tree = true
  ∧ fst (run (steady 1000) example_tree ∅) = inr tt
  ∧ doc_ref ≠ index_ref
  ∧ field "updated_at" <$> docs (snd (run (steady 1000) example_tree ∅)) !! doc_ref
    = Some None.
Proof. vm_compute. repeat split. discriminate. Qed.

(** C9. Over a well-formed tree whose [tier_structure] is an empty
    mapping, with a store that takes the six writes, the run completes
    successfully, writes exactly six documents (main, competitors, B2B
    API, white-label, insights, index) and reports a total tier count
    of 0. *)
Theorem no_tiers_six_writes env tree store :
  well_formed tree = true →
  tier_structure tree = [] →
  first_fault env 0 6 = None →
  fst (run env tree store) = inr tt
  ∧ attempts (snd (run env tree store)) = 6
  ∧ map fst (writes (snd (run env tree store)))
    = [doc_ref; comp_ref; b2b_ref; wl_ref; insights_ref; index_ref]
  ∧ "Total tiers: 0" ∈ stdout (snd (run env tree store)).
Proof.
  intros (Hv & Hs & _)%well_formed_inv Hnil Hcalm.
  assert (Ha : tiers_addressable tree = true)
    by (unfold tiers_addressable; by rewrite Hnil).
  assert (Hrun := run_ok env tree store Hs Ha).
  rewrite Hnil in Hrun. rewrite (Hrun Hcalm).
  unfold concluded; cbn [fst snd attempts writes stdout].
  rewrite completed_attempts, completed_writes.
  unfold start; cbn [attempts writes reads app].
  rewrite records_targets, plan_targets, plan_length, Hnil.
  repeat split. apply elem_of_app. right.
  unfold summary. simpl. do 2 right. left.
Qed.

Lemma no_tiers_six_writes_witness :
  fst (run (steady 1000) tierless_tree ∅) = inr tt
  ∧ attempts (snd (run (steady 1000) tierless_tree ∅)) = 6
  ∧ map fst (writes (snd (run (steady 1000) tierless_tree ∅)))
    = [doc_ref; comp_ref; b2b_ref; wl_ref; insights_ref; index_ref]
  ∧ "Total tiers: 0" ∈ stdout (snd (run (steady 1000) tierless_tree ∅)).
Proof.
  apply (no_tiers_six_writes (steady 1000) tierless_tree ∅); reflexivity.
Defined.

(** C10. Whatever the tier attributes, the B2B API pricing attributes,
    the white-label attributes and the key-insights attributes hold
    under [tier_id] or [updated_at], the record written has the
    script's values there: the tier's key under [tier_id] of a tier
    record, and the clock reading taken for the write under
    [updated_at]. *)
Theorem script_fields_override_input env tree store i p v :
  shaped tree = true →
  writes (run env tree store).2 !! i = Some (p, v) →
  (∀ name, p = tier_ref name → field "tier_id" v = Some (VStr name))
  ∧ ((∃ name, p = tier_ref name) ∨ p = b2b_ref ∨ p = wl_ref
     ∨ p = insights_ref →
     field "updated_at" v = Some (VDatetime (utcnow_at env i))).
Proof.
  intros Hs Hw.
  destruct (run_write_inv env tree store Hs i p v Hw) as (s & Hp & -> & ->).
  split.
  - intros name Hname.
    destruct (plan_step_cases tree i s Hp)
      as [[_ ->]|[(j & item & _ & _ & ->)|[->|[->|[->|[->| ->]]]]]];
      try discriminate Hname.
    apply tier_ref_inj in Hname as <-. apply tier_record_tier_id.
  - intros Hsec. apply (step_updated_at tree i s _ Hp).
    + destruct Hsec as [[name ->]|[->|[->| ->]]]; discriminate.
    + destruct Hsec as [[name ->]|[->|[->| ->]]]; discriminate.
Qed.

Lemma script_fields_override_input_witness :
  (∀ name, tier_ref "free" = tier_ref name →
           field "tier_id"
             (VDict [("tier_id", VStr "free"); ("price", VInt 0);
                     ("updated_at", VDatetime 1001)])
           = Some (VStr name))
  ∧ ((∃ name, tier_ref "free" = tier_ref name) ∨ tier_ref "free" = b2b_ref
     ∨ tier_ref "free" = wl_ref ∨ tier_ref "free" = insights_ref →
     field "updated_at"
       (VDict [("tier_id", VStr "free"); ("price", VInt 0);
               ("updated_at", VDatetime 1001)])
     = Some (VDatetime (utcnow_at (steady 1000) 1))).
Proof.
  apply (script_fields_override_input (steady 1000) shadowing_tree ∅ 1
           (tier_ref "free")); reflexivity.
Defined.



(** ** Running twice *)

Lemma without_stamp now d :
  fold_right Dict.remove (stamp now d) clock_fields
  = Dict.set "status" (VStr "active")
      (Dict.set "version" (VStr "v1.0")
        (Dict.set "uploaded_by" (VStr "claude-sonnet-4-5")
          (fold_right Dict.remove d clock_fields))).
Proof.
  unfold stamp, clock_fields. simpl.
  rewrite !(DictFacts.remove_set_ne "last_updated") by done.
  rewrite !(DictFacts.remove_set_ne "uploaded_at") by done.
  rewrite DictFacts.remove_set_eq.
  by rewrite !(DictFacts.remove_set_ne "updated_at") by done.
Qed.

Lemma without_section_record attrs now :
  without clock_fields (section_record attrs now)
  = VDict (fold_right Dict.remove attrs clock_fields).
Proof.
  unfold section_record, clock_fields. simpl.
  rewrite !(DictFacts.remove_set_ne "last_updated") by done.
  rewrite !(DictFacts.remove_set_ne "uploaded_at") by done.
  by rewrite DictFacts.remove_set_eq.
Qed.

Lemma without_tier_record name attrs now :
  without clock_fields (tier_record name attrs now)
  = VDict (Dict.set "tier_id" (VStr name)
             (fold_right Dict.remove attrs clock_fields)).
Proof.
  unfold tier_record, clock_fields. simpl.
  rewrite !(DictFacts.remove_set_ne "last_updated") by done.
  rewrite !(DictFacts.remove_set_ne "uploaded_at") by done.
  rewrite DictFacts.remove_set_eq.
  by rewrite !(DictFacts.remove_set_ne "updated_at") by done.
Qed.

(** The clock fields apart, the record of a step is the same whenever
    it is written. *)
Lemma without_step tree i s now now' :
  plan tree !! i = Some s →
  without clock_fields (record_at s now)
  = without clock_fields (record_at s now').
Proof.
  intros H.
  destruct (plan_step_cases tree i s H)
    as [[_ ->]|[(j & item & _ & _ & ->)|[->|[->|[->|[->| ->]]]]]].
  - unfold main_step, without; cbn [record_at]. by rewrite !without_stamp.
  - unfold tier_step; cbn [record_at]. by rewrite !without_tier_record.
  - done.
  - unfold b2b_step; cbn [record_at]. by rewrite !without_section_record.
  - unfold white_label_step; cbn [record_at].
    by rewrite !without_section_record.
  - unfold insights_step; cbn [record_at].
    by rewrite !without_section_record.
  - done.
Qed.

Lemma without_records env env' from from' steps :
  (∀ s now now', s ∈ steps →
     without clock_fields (record_at s now)
     = without clock_fields (record_at s now')) →
  map (fun w => (w.1, without clock_fields w.2)) (records env from steps)
  = map (fun w => (w.1, without clock_fields w.2)) (records env' from' steps).
Proof.
  revert from from'. induction steps as [|s steps IH]; intros from from' H;
    simpl; [done|].
  rewrite (H s (utcnow_at env from) (utcnow_at env' from'))
    by apply list_elem_of_here.
  f_equal. apply IH. intros s' now now' Hs'. apply H. by apply list_elem_of_further.
Qed.

Lemma fmap_store_after (f : value → value) ws store :
  f <$> store_after ws store
  = store_after (map (fun w => (w.1, f w.2)) ws) (f <$> store).
Proof.
  induction ws as [|[p v] ws IH] using rev_ind; [done|].
  rewrite map_app. simpl. rewrite !store_after_snoc. simpl.
  by rewrite fmap_insert, IH.
Qed.

(** At a target of the writes, the store after them does not depend on
    the store before. *)
Lemma store_after_absorb ws store store' p :
  p ∈ map fst ws ∨ store !! p = store' !! p →
  store_after ws store !! p = store_after ws store' !! p.
Proof.
  induction ws as [|[q v] ws IH] using rev_ind.
  - intros [H|H]; [by apply elem_of_nil in H|done].
  - rewrite map_app, !store_after_snoc. simpl. intros H.
    destruct (decide (q = p)) as [->|Hne].
    + by rewrite !lookup_insert_eq.
    + rewrite !lookup_insert_ne by done. apply IH.
      destruct H as [[H|H]%elem_of_app|H]; [by left| |by right].
      apply list_elem_of_singleton in H. by destruct Hne.
Qed.

(** Writing the same records a second time changes nothing. *)
Lemma store_after_twice ws store :
  store_after ws (store_after ws store) = store_after ws store.
Proof.
  apply map_eq. intros p.
  destruct (decide (p ∈ map fst ws)) as [Hin|Hout].
  - apply store_after_absorb. by left.
  - by rewrite !store_after_other.
Qed.

Lemma run_ok_snd_writes env tree store :
  shaped tree = true → fst (run env tree store) = inr tt →
  writes (run env tree store).2 = expected_writes env tree.
Proof.
  intros Hs Hok. destruct (run env tree store) as [r w'] eqn:E.
  simpl in *. subst r. by apply (run_ok_writes env tree store).
Qed.

Lemma run_ok_snd_docs env tree store :
  shaped tree = true → fst (run env tree store) = inr tt →
  docs (run env tree store).2 = store_after (expected_writes env tree) store.
Proof.
  intros Hs Hok. destruct (run env tree store) as [r w'] eqn:E.
  simpl in *. subst r. by apply (run_ok_docs env tree store).
Qed.

(** C6, as the script behaves.  Two successful runs over the same
    well-formed tree write the same records to the same documents, the
    fields [updated_at], [uploaded_at] and [last_updated] apart, and
    what a document holds afterwards does not depend on what the store
    held before: a record is replaced, not merged with what was there.
    When the second run starts from the store the first has left, it
    leaves the same store, those fields apart. *)
Theorem reruns_agree_up_to_clock_fields env env' tree store store' :
  well_formed tree = true →
  fst (run env tree store) = inr tt →
  fst (run env' tree store') = inr tt →
  map (fun w => (w.1, without clock_fields w.2))
      (writes (run env' tree store').2)
  = map (fun w => (w.1, without clock_fields w.2))
        (writes (run env tree store).2)
  ∧ (∀ p, p ∈ map fst (writes (run env tree store).2) →
          without clock_fields <$> docs (run env' tree store').2 !! p
          = without clock_fields <$> docs (run env tree store).2 !! p)
  ∧ (store' = docs (run env tree store).2 →
     without clock_fields <$> docs (run env' tree store').2
     = without clock_fields <$> docs (run env tree store).2).
Proof.
  intros (Hv & Hs & _)%well_formed_inv Hok Hok'.
  assert (Hwrites :
    map (fun w => (w.1, without clock_fields w.2)) (expected_writes env' tree)
    = map (fun w => (w.1, without clock_fields w.2)) (expected_writes env tree)).
  { apply without_records. intros s now now' [i Hi]%list_elem_of_lookup.
    by apply (without_step tree i). }
  rewrite (run_ok_snd_writes env' tree _ Hs Hok').
  rewrite (run_ok_snd_docs env' tree _ Hs Hok').
  rewrite (run_ok_snd_writes env tree _ Hs Hok).
  rewrite (run_ok_snd_docs env tree _ Hs Hok).
  split_and!; [done| |].
  - intros p Hp. rewrite <- !lookup_fmap, !fmap_store_after, Hwrites.
    apply store_after_absorb. left. by rewrite map_map.
  - intros ->. rewrite !fmap_store_after, Hwrites. apply store_after_twice.
Qed.

Lemma reruns_agree_up_to_clock_fields_witness :
  map (fun w => (w.1, without clock_fields w.2))
      (writes (run (steady 2000) example_tree
                   (docs (run (steady 1000) example_tree ∅).2)).2)
  = map (fun w => (w.1, without clock_fields w.2))
        (writes (run (steady 1000) example_tree ∅).2)
  ∧ (∀ p, p ∈ map fst (writes (run (steady 1000) example_tree ∅).2) →
          without clock_fields
            <$> docs (run (steady 2000) example_tree
                          (docs (run (steady 1000) example_tree ∅).2)).2 !! p
          = without clock_fields
              <$> docs (run (steady 1000) example_tree ∅).2 !! p)
  ∧ (docs (run (steady 1000) example_tree ∅).2
     = docs (run (steady 1000) example_tree ∅).2 →
     without clock_fields
       <$> docs (run (steady 2000) example_tree
                     (docs (run (steady 1000) example_tree ∅).2)).2
     = without clock_fields <$> docs (run (steady 1000) example_tree ∅).2).
Proof.
  apply (reruns_agree_up_to_clock_fields (steady 1000) (steady 2000)
           example_tree ∅ (docs (run (steady 1000) example_tree ∅).2));
    reflexivity.
Defined.

(** C6, as stated, fails: with [updated_at] and [uploaded_at] left out,
    the index documents of two successful runs over the sample tree
    still differ, in [last_updated]. *)
Lemma index_differs_between_runs :
  well_formed example_tree = true
  ∧ fst (run (steady 1000) example_tree ∅) = inr tt
  ∧ fst (run (steady 2000) example_tree
             (docs (run (steady 1000) example_tree ∅).2)) = inr tt
  ∧ without ["updated_at"; "uploaded_at"]
      <$> docs (run (steady 2000) example_tree
                    (docs (run (steady 1000) example_tree ∅).2)).2 !! index_ref
    ≠ without ["updated_at"; "uploaded_at"]
        <$> docs (run (steady 1000) example_tree ∅).2 !! index_ref.
Proof. vm_compute. split_and!; try done. Qed.

(** * Further properties of the script *)

(** ** When a run succeeds *)

(** X1. A run returns exactly when the tree has the shape the script
    needs, every tier key makes a document reference, and none of the
    [T + 6] calls of [set] raises; a run over such a tree can fail
    through a write only. *)
Theorem run_succeeds_iff env tree store :
  (fst (run env tree store) = inr tt ↔
   shaped tree = true
   ∧ tiers_addressable tree = true
   ∧ first_fault env 0 (List.length (tier_structure tree) + 6) = None)
  ∧ (∀ e, fst (run env tree store) = inl e → e ≠ WriteError →
          shaped tree = false ∨ tiers_addressable tree = false).
Proof.
  split; [split|].
  - intros Hok. pose proof (run_ok_shaped env tree store Hok) as Hs.
    split; [done|].
    destruct (run env tree store) as [r w'] eqn:E. simpl in Hok. subst r.
    split; [by apply (run_ok_addressable env tree store w')|].
    by destruct (run_ok_inv env tree store Hs w' E).
  - intros (Hs & Ha & Hf). by rewrite (run_ok env tree store Hs Ha Hf).
  - intros e He Hne. destruct (shaped tree) eqn:Hs; [|by left].
    destruct (tiers_addressable tree) eqn:Ha; [|by right].
    destruct (first_fault env 0 (List.length (tier_structure tree) + 6))
      as [k|] eqn:F.
    + rewrite (run_interrupted env tree store Hs k Ha F) in He.
      injection He as <-. done.
    + by rewrite (run_ok env tree store Hs Ha F) in He.
Qed.

Lemma run_succeeds_iff_witness :
  fst (run (steady 1000) tree_with_split_key ∅) = inl ValueError
  ∧ (shaped tree_with_split_key = false
     ∨ tiers_addressable tree_with_split_key = false).
Proof.
  split; [reflexivity|].
  apply (run_succeeds_iff (steady 1000) tree_with_split_key ∅)
    with (e := ValueError); [reflexivity|discriminate].
Defined.

(** ** What a run leaves alone *)

Lemma write_order_under_strategy names p :
  p ∈ write_order names → strategy `prefix_of` p.
Proof.
  unfold write_order. intros [->|[H|H]%elem_of_app]%elem_of_cons.
  - by exists ["research"; "v1_2026_01_05"].
  - apply list_elem_of_fmap in H as (name & -> & _).
    exists ("tiers" :: split_path name). by rewrite tier_ref_segments.
  - repeat (apply elem_of_cons in H as [->|H]; [by eexists|]).
    by apply elem_of_nil in H.
Qed.

Lemma tier_ref_in_write_order names name :
  tier_ref name ∈ write_order names → name ∈ names.
Proof.
  unfold write_order. intros [H|[H|H]%elem_of_app]%elem_of_cons.
  - discriminate H.
  - apply list_elem_of_fmap in H as (name' & H & Hin).
    by apply tier_ref_inj in H as ->.
  - repeat (apply elem_of_cons in H as [H|H]; [discriminate H|]).
    by apply elem_of_nil in H.
Qed.

Lemma store_after_is_Some ws store p :
  is_Some (store !! p) → is_Some (store_after ws store !! p).
Proof.
  induction ws as [|[q v] ws IH] using rev_ind; [done|].
  rewrite store_after_snoc. intros H.
  destruct (decide (q = p)) as [->|Hne].
  - rewrite lookup_insert_eq. by eexists.
  - rewrite lookup_insert_ne by done. by apply IH.
Qed.

Lemma run_targets_in_order env tree store p :
  p ∈ map fst (writes (run env tree store).2) →
  p ∈ write_order (map fst (tier_structure tree)).
Proof.
  destruct (run_targets_prefix env tree store) as [rest ->].
  intros H. apply elem_of_app. by left.
Qed.

(** X2. Whatever the tree and whatever the outcome, a run writes below
    [ai_music_studio/pricing_strategy] only; a document that is not one
    of the run's [T + 6] targets is as it was before, the document of a
    tier that the tree does not have among them; and no document is
    removed. *)
Theorem run_leaves_the_rest_alone env tree store :
  (∀ p, p ∈ map fst (writes (run env tree store).2) →
        strategy `prefix_of` p)
  ∧ (∀ p, p ∉ write_order (Dict.keys (tier_structure tree)) →
          docs (run env tree store).2 !! p = store !! p)
  ∧ (∀ name, name ∉ Dict.keys (tier_structure tree) →
             docs (run env tree store).2 !! tier_ref name
             = store !! tier_ref name)
  ∧ (∀ p, is_Some (store !! p) →
          is_Some (docs (run env tree store).2 !! p)).
Proof.
  unfold Dict.keys.
  destruct (run_orderly env tree store) as (Hd & _).
  assert (Hout : ∀ p, p ∉ write_order (map fst (tier_structure tree)) →
                      docs (run env tree store).2 !! p = store !! p).
  { intros p Hp. rewrite Hd. apply store_after_other.
    intros Hin. by apply Hp, (run_targets_in_order env tree store). }
  split_and!.
  - intros p Hp. apply (write_order_under_strategy (map fst (tier_structure tree))).
    by apply (run_targets_in_order env tree store).
  - done.
  - intros name Hname. apply Hout. intros Hin.
    by apply Hname, tier_ref_in_write_order.
  - intros p Hp. rewrite Hd. by apply store_after_is_Some.
Qed.

Lemma dom_store_after (ws : list (path * value)) (store : gmap path value) :
  dom (store_after ws store) = list_to_set (map fst ws) ∪ dom store.
Proof.
  induction ws as [|[q v] ws IH] using rev_ind.
  - simpl. symmetry. apply (left_id_L ∅ (∪)).
  - rewrite store_after_snoc, dom_insert_L, IH, map_app, list_to_set_app_L.
    simpl. rewrite (right_id_L ∅ (∪)), (assoc_L (∪)). f_equal.
    apply (comm_L (∪)).
Qed.

(** X3. From an empty store, a successful run over a tree with
    distinct keys leaves exactly [T + 6] documents, one at each of its
    targets. *)
Theorem run_fills_an_empty_store env tree :
  valid tree = true →
  fst (run env tree ∅) = inr tt →
  size (docs (run env tree ∅).2) = List.length (tier_structure tree) + 6
  ∧ dom (docs (run env tree ∅).2)
    = list_to_set (write_order (Dict.keys (tier_structure tree))).
Proof.
  unfold Dict.keys. intros Hv Hok.
  destruct (run_orderly env tree ∅) as (Hd & _ & _ & Hr).
  simpl in Hok. rewrite Hok in Hr. destruct Hr as [Ht _].
  assert (Hdom : dom (docs (run env tree ∅).2)
                 = list_to_set (write_order (map fst (tier_structure tree)))).
  { rewrite Hd, dom_store_after, Ht, dom_empty_L. apply (right_id_L ∅ (∪)). }
  split; [|done].
  rewrite <- size_dom, Hdom, size_list_to_set
    by by apply write_order_NoDup, tier_names_distinct.
  unfold write_order. simpl. rewrite length_app, !length_map. simpl. lia.
Qed.

Lemma run_fills_an_empty_store_witness :
  size (docs (run (steady 1000) example_tree ∅).2) = 2 + 6
  ∧ dom (docs (run (steady 1000) example_tree ∅).2)
    = list_to_set (write_order ["free"; "pro"]).
Proof.
  apply (run_fills_an_empty_store (steady 1000) example_tree); reflexivity.
Defined.

(** ** What a run prints *)

(** X4. Over a tree of the shape the script needs, the lines printed
    are the confirmations of the writes that went through, in the order
    of the writes, the line of a tier naming the tier; a run that
    succeeds then prints the five lines of the summary, with the number
    of tiers, and a run that fails prints nothing more. *)
Theorem run_reports_each_write env tree store :
  shaped tree = true →
  stdout (run env tree store).2
  = map report
      (take (List.length (writes (run env tree store).2)) (plan tree))
    ++ match fst (run env tree store) with
       | inr _ => summary (List.length (tier_structure tree))
       | inl _ => []
       end
  ∧ map report (plan tree)
    = ["✓ Uploaded main research document to Firestore"]
      ++ map (fun name => "✓ Uploaded tier: " +:+ name)
             (Dict.keys (tier_structure tree))
      ++ ["✓ Uploaded competitor analysis"; "✓ Uploaded B2B API pricing";
          "✓ Uploaded white-label pricing"; "✓ Uploaded key insights";
          "✓ Created index document"].
Proof.
  intros Hs. split.
  - destruct (script_error tree) as [[n e]|] eqn:He.
    { destruct (run_script_error env tree store n e He)
        as (w' & -> & Hw & _ & Hout).
      apply script_error_bound in He.
      assert (default n (first_fault env 0 n) ≤ n)%nat as Hk.
      { destruct (first_fault env 0 n) as [k|] eqn:F; [|done].
        apply first_fault_Some in F as (Hk & _). simpl. lia. }
      cbn [fst snd]. rewrite Hout, Hw, records_length.
      rewrite length_take, Nat.min_l by lia. by rewrite app_nil_r. }
    apply script_error_None in He as [_ Ha].
    unfold run. rewrite (run_shaped env tree _ Hs Ha).
    destruct (first_fault env (attempts (start store))
                (List.length (plan tree))) as [k|] eqn:F.
    + apply first_fault_Some in F as (Hk & _).
      unfold interrupted; cbn [fst snd stdout writes].
      rewrite completed_stdout, completed_writes_length.
      rewrite length_take_le by lia. simpl. by rewrite app_nil_r.
    + unfold concluded; cbn [fst snd stdout writes].
      rewrite completed_stdout, completed_writes_length, plan_length.
      simpl. rewrite firstn_all2; [done|]. rewrite plan_length. lia.
  - unfold plan, Dict.keys. simpl. by rewrite map_app, !map_map.
Qed.

Lemma run_reports_each_write_witness :
  stdout (run (failing_at 2 1000) example_tree ∅).2
  = map report
      (take (List.length (writes (run (failing_at 2 1000) example_tree ∅).2))
            (plan example_tree))
    ++ match fst (run (failing_at 2 1000) example_tree ∅) with
       | inr _ => summary (List.length (tier_structure example_tree))
       | inl _ => []
       end
  ∧ map report (plan example_tree)
    = ["✓ Uploaded main research document to Firestore"]
      ++ map (fun name => "✓ Uploaded tier: " +:+ name)
             (Dict.keys (tier_structure example_tree))
      ++ ["✓ Uploaded competitor analysis"; "✓ Uploaded B2B API pricing";
          "✓ Uploaded white-label pricing"; "✓ Uploaded key insights";
          "✓ Created index document"].
Proof.
  apply (run_reports_each_write (failing_at 2 1000) example_tree ∅).
  reflexivity.
Defined.

(** ** The clock readings in the records *)

Lemma step_clock_field tree i s now :
  plan tree !! i = Some s →
  field (clock_field (target s)) (record_at s now) = Some (VDatetime now).
Proof.
  intros H.
  destruct (plan_step_cases tree i s H)
    as [[_ ->]|[(j & item & _ & _ & ->)|[->|[->|[->|[->| ->]]]]]];
    try reflexivity.
  - apply main_record_fields.
  - apply tier_record_updated_at.
  - apply section_record_updated_at.
  - apply section_record_updated_at.
  - apply section_record_updated_at.
Qed.

(** X5. Over a tree of the shape the script needs, write number [i]
    carries clock reading number [i], under [uploaded_at] in the main
    record, [last_updated] in the index and [updated_at] in the others;
    so, with a clock that does not run backwards, a record written
    later never carries an earlier time. *)
Theorem records_are_stamped_in_order env tree store :
  shaped tree = true →
  (∀ i p v,
     writes (run env tree store).2 !! i = Some (p, v) →
     field (clock_field p) v = Some (VDatetime (utcnow_at env i)))
  ∧ ((∀ a b : nat, (a ≤ b)%nat → (utcnow_at env a ≤ utcnow_at env b)%Z) →
     ∀ (i j : nat) p v q u t t',
       (i ≤ j)%nat →
       writes (run env tree store).2 !! i = Some (p, v) →
       writes (run env tree store).2 !! j = Some (q, u) →
       field (clock_field p) v = Some (VDatetime t) →
       field (clock_field q) u = Some (VDatetime t') →
       (t ≤ t')%Z).
Proof.
  intros Hs.
  assert (Hstamp : ∀ i p v,
            writes (run env tree store).2 !! i = Some (p, v) →
            field (clock_field p) v = Some (VDatetime (utcnow_at env i))).
  { intros i p v Hw.
    destruct (run_write_inv env tree store Hs i p v Hw) as (s & Hp & -> & ->).
    by apply (step_clock_field tree i). }
  split; [done|].
  intros Hmono i j p v q u t t' Hij Hi Hj Ht Ht'.
  rewrite (Hstamp _ _ _ Hi) in Ht. rewrite (Hstamp _ _ _ Hj) in Ht'.
  injection Ht as <-. injection Ht' as <-. by apply Hmono.
Qed.

Lemma records_are_stamped_in_order_witness :
  (∀ i p v,
     writes (run (steady 1000) example_tree ∅).2 !! i = Some (p, v) →
     field (clock_field p) v = Some (VDatetime (utcnow_at (steady 1000) i)))
  ∧ ((∀ a b : nat, (a ≤ b)%nat →
             (utcnow_at (steady 1000) a ≤ utcnow_at (steady 1000) b)%Z) →
     ∀ (i j : nat) p v q u t t',
       (i ≤ j)%nat →
       writes (run (steady 1000) example_tree ∅).2 !! i = Some (p, v) →
       writes (run (steady 1000) example_tree ∅).2 !! j = Some (q, u) →
       field (clock_field p) v = Some (VDatetime t) →
       field (clock_field q) u = Some (VDatetime t') →
       (t ≤ t')%Z).
Proof.
  apply (records_are_stamped_in_order (steady 1000) example_tree ∅).
  reflexivity.
Defined.

(** ** What the records keep of the input *)

Lemma get_stamp now d k :
  k ∉ metadata_keys → Dict.get k (stamp now d) = Dict.get k d.
Proof.
  unfold metadata_keys, stamp. intros Hk.
  rewrite !DictFacts.get_set_ne; [done|..]; intros ->; apply Hk;
    repeat first [apply list_elem_of_here|apply list_elem_of_further].
Qed.

(** X6. Over a tree of the shape the script needs, the first write goes
    to the main research document, and its record holds every key of
    the loaded tree with the value the tree has there, the four keys
    the script assigns apart. *)
Theorem main_record_keeps_the_tree env tree store p v :
  shaped tree = true →
  writes (run env tree store).2 !! 0 = Some (p, v) →
  p = doc_ref ∧ ∀ k, k ∉ metadata_keys → field k v = field k tree.
Proof.
  intros Hs Hw.
  destruct (run_write_inv env tree store Hs 0 p v Hw) as (s & Hp & -> & ->).
  injection Hp as <-. split; [done|]. intros k Hk.
  apply shaped_inv in Hs as (d & ? & ? & ? & ? & ? & ? & ? & ? & -> & _).
  by apply get_stamp.
Qed.

Lemma main_record_keeps_the_tree_witness :
  doc_ref = doc_ref
  ∧ ∀ k, k ∉ metadata_keys →
         field k (VDict (stamp 1000 (attrs_of example_tree)))
         = field k example_tree.
Proof.
  apply (main_record_keeps_the_tree (steady 1000) example_tree ∅ doc_ref
           (VDict (stamp 1000 (attrs_of example_tree)))); reflexivity.
Defined.

Lemma section_record_other attrs now k :
  k ≠ "updated_at" → field k (section_record attrs now) = Dict.get k attrs.
Proof. intros. unfold section_record, field. by rewrite DictFacts.get_set_ne. Qed.

Lemma tier_record_keeps name attrs now k :
  k ≠ "tier_id" → k ≠ "updated_at" →
  field k (tier_record name attrs now) = Dict.get k attrs.
Proof.
  intros. unfold tier_record, field. by rewrite !DictFacts.get_set_ne.
Qed.

Lemma plan_lookup_target tree i s :
  plan tree !! i = Some s →
  (target s = comp_ref → s = competitors_step tree)
  ∧ (target s = b2b_ref → s = b2b_step tree)
  ∧ (target s = wl_ref → s = white_label_step tree)
  ∧ (target s = insights_ref → s = insights_step tree).
Proof.
  intros H.
  destruct (plan_step_cases tree i s H)
    as [[_ ->]|[(j & item & _ & _ & ->)|[->|[->|[->|[->| ->]]]]]];
    split_and!; intros Ht; try done; discriminate Ht.
Qed.

(** X7. Over a tree of the shape the script needs, the records of the
    fan-out keep what the tree holds: the record of tier number [j] has
    every attribute of the tier, [tier_id] and [updated_at] apart; the
    competitors record has the whole competitor section under
    [competitors]; the B2B, white-label and insights records have every
    attribute of their section, [updated_at] apart. *)
Theorem fan_out_keeps_the_sections env tree store i p v :
  shaped tree = true →
  writes (run env tree store).2 !! i = Some (p, v) →
  (∀ j name data,
     i = S j → tier_structure tree !! j = Some (name, data) →
     ∀ k, k ≠ "tier_id" → k ≠ "updated_at" → field k v = field k data)
  ∧ (p = comp_ref → field "competitors" v = Some (competitor_pricing tree))
  ∧ (p = b2b_ref →
     ∀ k, k ≠ "updated_at" → field k v = Dict.get k (b2b_api_pricing tree))
  ∧ (p = wl_ref →
     ∀ k, k ≠ "updated_at" →
          field k v = Dict.get k (white_label_reseller tree))
  ∧ (p = insights_ref →
     ∀ k, k ≠ "updated_at" → field k v = Dict.get k (key_insights tree)).
Proof.
  intros Hs Hw.
  destruct (run_write_inv env tree store Hs i p v Hw) as (s & Hp & -> & ->).
  destruct (plan_lookup_target tree i s Hp) as (Hc & Hb & Hwl & Hi).
  split_and!.
  - intros j name data -> Hj k Hk Hk'.
    rewrite (plan_tier tree j _ Hj) in Hp. injection Hp as <-.
    unfold tier_step; cbn [record_at fst snd].
    rewrite tier_record_keeps by done.
    apply shaped_inv in Hs
      as (d & pricing & tiers & b2b & wl & comp & ins & srcs & n & ->
          & Hp & Ht & Htiers & Hb' & Hw' & Hc' & Hi' & Hs' & Hn).
    destruct (sections_of_shaped _ _ _ _ _ _ _ _ Hp Ht Hb' Hw' Hc' Hi' Hs')
      as (Et & _).
    rewrite Et in Hj. apply list_elem_of_lookup_2, list_elem_of_In in Hj.
    pose proof (proj1 (forallb_forall _ _) Htiers _ Hj) as Hd.
    by destruct data.
  - intros Ht. by rewrite (Hc Ht).
  - intros Ht k Hk. rewrite (Hb Ht). by apply section_record_other.
  - intros Ht k Hk. rewrite (Hwl Ht). by apply section_record_other.
  - intros Ht k Hk. rewrite (Hi Ht). by apply section_record_other.
Qed.

Lemma fan_out_keeps_the_sections_witness :
  (∀ j name data,
     1 = S j → tier_structure shadowing_tree !! j = Some (name, data) →
     ∀ k, k ≠ "tier_id" → k ≠ "updated_at" →
          field k (VDict [("tier_id", VStr "free"); ("price", VInt 0);
                          ("updated_at", VDatetime 1001)])
          = field k data)
  ∧ (tier_ref "free" = comp_ref →
     field "competitors"
       (VDict [("tier_id", VStr "free"); ("price", VInt 0);
               ("updated_at", VDatetime 1001)])
     = Some (competitor_pricing shadowing_tree))
  ∧ (tier_ref "free" = b2b_ref →
     ∀ k, k ≠ "updated_at" →
          field k (VDict [("tier_id", VStr "free"); ("price", VInt 0);
                          ("updated_at", VDatetime 1001)])
          = Dict.get k (b2b_api_pricing shadowing_tree))
  ∧ (tier_ref "free" = wl_ref →
     ∀ k, k ≠ "updated_at" →
          field k (VDict [("tier_id", VStr "free"); ("price", VInt 0);
                          ("updated_at", VDatetime 1001)])
          = Dict.get k (white_label_reseller shadowing_tree))
  ∧ (tier_ref "free" = insights_ref →
     ∀ k, k ≠ "updated_at" →
          field k (VDict [("tier_id", VStr "free"); ("price", VInt 0);
                          ("updated_at", VDatetime 1001)])
          = Dict.get k (key_insights shadowing_tree)).
Proof.
  apply (fan_out_keeps_the_sections (steady 1000) shadowing_tree ∅ 1
           (tier_ref "free")); reflexivity.
Defined.

(** ** Trees the script cannot get through *)

(** X8. Over a tree the script cannot get through, the run raises
    whatever the store does.  With [n] the number of writes the script
    asks for before the first of its own operations that raises (an
    assignment to something that is no mapping, a missing key, a tier
    key the client makes no document reference of, a tier or section
    that is no mapping, [sources] without a length): when none of these
    writes raises, the run ends with the exception of that operation
    after the first [n] writes of the write order; when write number
    [k] is the first to raise, it ends with the write error after the
    first [k].  The store holds these writes over what it held, and one
    line is printed for each. *)
Theorem run_stops_at_the_first_failure env tree store (n : nat) e :
  script_error tree = Some (n, e) →
  fst (run env tree store)
  = inl (match first_fault env 0 n with Some _ => WriteError | None => e end)
  ∧ writes (run env tree store).2
    = records env 0 (take (default n (first_fault env 0 n)) (plan tree))
  ∧ docs (run env tree store).2
    = store_after
        (records env 0 (take (default n (first_fault env 0 n)) (plan tree)))
        store
  ∧ stdout (run env tree store).2
    = map report (take (default n (first_fault env 0 n)) (plan tree))
  ∧ (n < List.length (tier_structure tree) + 6)%nat.
Proof.
  intros H. destruct (run_script_error env tree store n e H)
    as (w' & -> & Hw & Hd & Hs).
  split_and!; [done..|].
  rewrite <- plan_length. by apply script_error_bound in H.
Qed.

Lemma run_stops_at_the_first_failure_witness :
  fst (run (steady 1000) tree_with_split_key used_store) = inl ValueError
  ∧ writes (run (steady 1000) tree_with_split_key used_store).2
    = [(doc_ref,
        VDict (stamp 1000 (attrs_of tree_with_split_key)));
       (tier_ref "free",
        VDict [("price", VInt 0); ("tier_id", VStr "free");
               ("updated_at", VDatetime 1001)])]
  ∧ docs (run (steady 1000) tree_with_split_key used_store).2
    = <[tier_ref "free" :=
          VDict [("price", VInt 0); ("tier_id", VStr "free");
                 ("updated_at", VDatetime 1001)]]>
        (<[doc_ref := VDict (stamp 1000 (attrs_of tree_with_split_key))]>
           used_store)
  ∧ stdout (run (steady 1000) tree_with_split_key used_store).2
    = ["✓ Uploaded main research document to Firestore";
       "✓ Uploaded tier: free"]
  ∧ (2 < 3 + 6)%nat.
Proof.
  apply (run_stops_at_the_first_failure (steady 1000) tree_with_split_key
           used_store 2 ValueError).
  reflexivity.
Defined.

Lemma write_order_front names :
  write_order names
  = (doc_ref :: map tier_ref names
     ++ [comp_ref; b2b_ref; wl_ref; insights_ref]) ++ [index_ref].
Proof. unfold write_order. simpl. by rewrite <- app_assoc. Qed.

(** The index is the one target that is no longer than the root. *)
Lemma index_ref_last names (k : nat) :
  (k < List.length (write_order names))%nat →
  index_ref ∉ take k (write_order names).
Proof.
  rewrite write_order_front, length_app. simpl List.length. intros Hk.
  rewrite take_app_le by (simpl; lia).
  intros H%subseteq_take.
  apply elem_of_cons in H as [H|[H|H]%elem_of_app]; [discriminate H| |].
  - apply list_elem_of_fmap in H as (name & H & _).
    rewrite tier_ref_segments in H. discriminate H.
  - repeat (apply elem_of_cons in H as [H|H]; [discriminate H|]).
    by apply elem_of_nil in H.
Qed.

Lemma index_ref_in_write_order names : index_ref ∈ write_order names.
Proof.
  rewrite write_order_front. apply elem_of_app. right.
  apply list_elem_of_here.
Qed.

(** X9. The index document is the mark of a complete run: whatever the
    tree, the store and the writes that raise, a run writes the index
    document exactly when it returns; a run that raises, at a lookup or
    at a write, has not written it. *)
Theorem index_written_iff_run_returns env tree store :
  index_ref ∈ map fst (writes (run env tree store).2)
  ↔ fst (run env tree store) = inr tt.
Proof.
  destruct (script_error tree) as [[n e]|] eqn:He.
  - destruct (run_script_error env tree store n e He)
      as (w' & -> & Hw & _).
    split; [|done]. cbn [fst snd]. rewrite Hw.
    rewrite records_targets, <- firstn_map, plan_targets.
    intros H. exfalso. revert H. apply index_ref_last.
    rewrite <- plan_targets, length_map.
    apply script_error_bound in He.
    destruct (first_fault env 0 n) as [k|] eqn:F; [|done].
    change (default n (Some k)) with k.
    apply first_fault_Some in F as (Hk & _). lia.
  - apply script_error_None in He as [Hs Ha].
    destruct (first_fault env 0 (List.length (tier_structure tree) + 6))
      as [k|] eqn:F.
    + rewrite (run_interrupted env tree store Hs k Ha F). split; [|done].
      cbn [fst snd interrupted writes]. rewrite completed_writes.
      cbn [start writes reads app].
      rewrite records_targets, <- firstn_map, plan_targets.
      intros H. exfalso. revert H. apply index_ref_last.
      apply first_fault_Some in F as (Hk & _).
      by rewrite <- plan_targets, length_map, plan_length.
    + rewrite (run_ok env tree store Hs Ha F). split; [done|]. intros _.
      cbn [fst snd concluded writes]. rewrite completed_writes.
      cbn [start writes reads app].
      rewrite records_targets, plan_targets.
      apply index_ref_in_write_order.
Qed.

Ltac listed :=
  repeat first [apply list_elem_of_here | apply list_elem_of_further].

(** X10. After a run that returns, the index document tells the truth
    about what the run wrote: its [latest_version] is the id of the
    main research document; every other document written lies below a
    collection listed under [subcollections], the document of a tier as
    deep below [tiers] as its key has segments between [/]; and every
    collection listed there has received a document of its own,
    [tiers] apart, which is listed also when the tree has no tier. *)
Theorem index_lists_the_collections_written env tree store :
  fst (run env tree store) = inr tt →
  ∃ v subs id,
    docs (run env tree store).2 !! index_ref = Some v
    ∧ field "subcollections" v = Some (VList subs)
    ∧ doc_ref = index_ref ++ ["research"; id]
    ∧ field "latest_version" v = Some (VStr id)
    ∧ (∀ p, p ∈ map fst (writes (run env tree store).2) → p ≠ index_ref →
            ∃ c ids, p = index_ref ++ c :: ids ∧ ids ≠ []
                     ∧ VStr c ∈ subs)
    ∧ (∀ name, name ∈ Dict.keys (tier_structure tree) →
               index_ref ++ "tiers" :: split_path name
               ∈ map fst (writes (run env tree store).2))
    ∧ (∀ c, VStr c ∈ subs → c ≠ "tiers" →
            ∃ id', index_ref ++ [c; id']
                   ∈ map fst (writes (run env tree store).2))
    ∧ VStr "tiers" ∈ subs.
Proof.
  intros Hok. pose proof (run_ok_shaped env tree store Hok) as Hs.
  rewrite (run_ok_index env tree store Hs Hok),
    (run_ok_snd_writes env tree store Hs Hok), expected_targets.
  eexists _, _, _. split; [reflexivity|].
  split; [reflexivity|]. split; [reflexivity|]. split; [reflexivity|].
  split_and!.
  - unfold write_order.
    intros p [->|[H|H]%elem_of_app]%elem_of_cons Hp.
    + exists "research", ["v1_2026_01_05"]. split_and!; [done..|listed].
    + apply list_elem_of_fmap in H as (name & -> & _).
      exists "tiers", (split_path name).
      split_and!; [done|apply split_path_nonempty|listed].
    + apply elem_of_cons in H as [->|H].
      { exists "competitors", ["analysis_2026_01_05"].
        split_and!; [done..|listed]. }
      apply elem_of_cons in H as [->|H].
      { exists "b2b_models", ["api_pricing"]. split_and!; [done..|listed]. }
      apply elem_of_cons in H as [->|H].
      { exists "b2b_models", ["white_label"]. split_and!; [done..|listed]. }
      apply elem_of_cons in H as [->|H].
      { exists "analytics", ["key_insights"]. split_and!; [done..|listed]. }
      apply elem_of_cons in H as [->|H]; [done|].
      by apply elem_of_nil in H.
  - unfold Dict.keys, write_order. intros name Hname.
    apply list_elem_of_further, elem_of_app. left.
    apply list_elem_of_fmap. by exists name.
  - intros c Hc Hne. unfold write_order.
    repeat (apply elem_of_cons in Hc as [Hc|Hc];
            [injection Hc as ->; try done; eexists;
             first [apply list_elem_of_here
                   |apply list_elem_of_further, elem_of_app; right;
                    listed]|]).
    by apply elem_of_nil in Hc.
  - listed.
Qed.

Lemma index_lists_the_collections_written_witness :
  ∃ v subs id,
    docs (run (steady 1000) tree_with_nested_key used_store).2 !! index_ref
    = Some v
    ∧ field "subcollections" v = Some (VList subs)
    ∧ doc_ref = index_ref ++ ["research"; id]
    ∧ field "latest_version" v = Some (VStr id)
    ∧ (∀ p, p ∈ map fst (writes (run (steady 1000) tree_with_nested_key
                                   used_store).2) →
            p ≠ index_ref →
            ∃ c ids, p = index_ref ++ c :: ids ∧ ids ≠ []
                     ∧ VStr c ∈ subs)
    ∧ (∀ name, name ∈ Dict.keys (tier_structure tree_with_nested_key) →
               index_ref ++ "tiers" :: split_path name
               ∈ map fst (writes (run (steady 1000) tree_with_nested_key
                                    used_store).2))
    ∧ (∀ c, VStr c ∈ subs → c ≠ "tiers" →
            ∃ id', index_ref ++ [c; id']
                   ∈ map fst (writes (run (steady 1000) tree_with_nested_key
                                        used_store).2))
    ∧ VStr "tiers" ∈ subs.
Proof.
  apply (index_lists_the_collections_written (steady 1000)
           tree_with_nested_key used_store).
  reflexivity.
Defined.
